(** * docs/build.py: page parser and site builder

    A shallow embedding of [docs/build.py], the script that builds the
    documentation pages of oxicrab from [_layout.html] and [_pages/*.html],
    and the properties of it that its specification states.

    Contents:
    - Python strings: a [str] is a list of code points; the string methods
      the script calls ([strip], [split], [partition], [replace],
      [endswith], [upper]) and [sorted];
    - the module [Re]: the part of Python's backtracking [re] engine that
      the three patterns of the script need (literal characters, the two
      anchors, greedy and lazy stars of a character class, groups), with
      [re.match] and [re.search];
    - dictionaries in insertion order, exceptions;
    - [parse_page], and [build] in a state and exception monad over the
      files and the printed lines;
    - the vocabulary of the statements, the lemmas, and one section per
      claim of the specification. *)

From Stdlib Require Import String Ascii List NArith Arith Lia Bool.
From Stdlib Require Import Permutation Sorted.
Import ListNotations.

Set Implicit Arguments.

(* ===================================================================== *)
(** * Python strings *)
(* ===================================================================== *)

(** A Python [str] is a sequence of Unicode code points. *)
Definition char := N.
Definition str := list char.

Definition NL : char := 10%N.
Definition DQUOTE : char := 34%N.
Definition COLON : char := 58%N.
Definition LBRACE : char := 123%N.
Definition RBRACE : char := 125%N.
Definition BACKSLASH : char := 92%N.
(** The three code points that the script's last literal has between
    [Done] and the number of pages: U+00E2, U+20AC, U+201D. *)
Definition DONE_DASH : str := [226%N; 8364%N; 8221%N].

(** [lit "..."] is the Python literal ['...'].  The only escape the
    script's literals use is [\n], read as a line feed; every other
    character stands for itself. *)
Fixpoint unescape (esc : bool) (s : list ascii) : str :=
  match s with
  | [] => []
  | a :: s' =>
      let c := N_of_ascii a in
      if esc then (if N.eqb c 110 then NL else c) :: unescape false s'
      else if N.eqb c BACKSLASH then unescape true s'
      else c :: unescape false s'
  end.

Definition lit (s : string) : str := unescape false (list_ascii_of_string s).

Definition char_eqb (a b : char) : bool := N.eqb a b.
Arguments char_eqb : simpl never.

Fixpoint str_eqb (a b : str) : bool :=
  match a, b with
  | [], [] => true
  | x :: a', y :: b' => char_eqb x y && str_eqb a' b'
  | _, _ => false
  end.

(** [str.isspace] on one code point, which is also what [\s] matches in a
    [str] pattern: the ASCII white space, the information separators
    U+001C..U+001F, and the Unicode characters of bidirectional type WS, B
    or S or of category Zs. *)
Definition isspace (c : char) : bool :=
  ((9 <=? c) && (c <=? 13) || (28 <=? c) && (c <=? 32)
   || (c =? 133) || (c =? 160) || (c =? 5760)
   || (8192 <=? c) && (c <=? 8202)
   || (c =? 8232) || (c =? 8233) || (c =? 8239) || (c =? 8287)
   || (c =? 12288))%N.

(** [s.startswith(p)] *)
Fixpoint startswith (p s : str) : bool :=
  match p, s with
  | [], _ => true
  | x :: p', y :: s' => char_eqb x y && startswith p' s'
  | _ :: _, [] => false
  end.

(** [s.endswith(p)] *)
Definition endswith (p s : str) : bool := startswith (rev p) (rev s).

(** [s.find(sub)], with [None] for Python's [-1]. *)
Fixpoint find (sub s : str) : option nat :=
  if startswith sub s then Some 0
  else match s with
       | [] => None
       | _ :: s' => option_map S (find sub s')
       end.

(** [s.lstrip()], [s.rstrip()], [s.strip()] *)
Fixpoint lstrip (s : str) : str :=
  match s with
  | c :: s' => if isspace c then lstrip s' else s
  | [] => []
  end.

Definition rstrip (s : str) : str := rev (lstrip (rev s)).

Definition strip (s : str) : str := rstrip (lstrip s).

(** [s.split(sep)] for a separator of one character. *)
Fixpoint split (sep : char) (s : str) : list str :=
  match s with
  | [] => [[]]
  | c :: s' =>
      if char_eqb c sep then [] :: split sep s'
      else match split sep s' with
           | w :: ws => (c :: w) :: ws
           | [] => [[c]]
           end
  end.

(** [s.partition(sep)] for a separator of one character: the text before
    the first separator, the separator (empty when there is none) and the
    text after it. *)
Fixpoint partition (sep : char) (s : str) : str * str * str :=
  match s with
  | [] => ([], [], [])
  | c :: s' =>
      if char_eqb c sep then ([], [sep], s')
      else let '(a, m, b) := partition sep s' in (c :: a, m, b)
  end.

(** [s.upper()] on the ASCII letters, the only letters of the keys the
    script upper-cases. *)
Definition upper (s : str) : str :=
  map (fun c => if ((97 <=? c) && (c <=? 122))%N then (c - 32)%N else c) s.

(** [s.replace(old, new)]: the occurrences of [old] are found from left to
    right and do not overlap.  [skip] counts the characters of an
    occurrence that are still to be dropped. *)
Fixpoint replace_from (old new : str) (skip : nat) (s : str) : str :=
  match s with
  | [] => []
  | c :: s' =>
      match skip with
      | S n => replace_from old new n s'
      | O =>
          if startswith old s
          then new ++ replace_from old new (length old - 1) s'
          else c :: replace_from old new 0 s'
      end
  end.

Definition replace (old new s : str) : str :=
  match old with
  | [] => new ++ flat_map (fun c => c :: new) s
  | _ :: _ => replace_from old new 0 s
  end.

(** [s[a:b]] for [0 <= a <= b]. *)
Definition slice (s : str) (a b : nat) : str := firstn (b - a) (skipn a s).

(** [str(n)] for a natural number. *)
Fixpoint digits (fuel n : nat) (acc : str) : str :=
  match fuel with
  | O => acc
  | S fuel' =>
      let d := N.of_nat (n mod 10) in
      let acc' := (48 + d)%N :: acc in
      if n <? 10 then acc' else digits fuel' (n / 10) acc'
  end.

Definition str_of_nat (n : nat) : str := digits (S n) n [].

(* ===================================================================== *)
(** * The [re] engine *)
(* ===================================================================== *)

(** The patterns of the script are sequences of literals, anchors, groups
    and starred character classes, so a pattern is a list of atoms; a group
    is a pair of marks that record the position where it opens and closes.
    The engine is Python's: it backtracks, a greedy star tries the longest
    run first and a lazy star the shortest, and the first successful path
    is the match. *)
Module Re.

Inductive cclass :=
| Dot      (* [.] *)
| Space.   (* [\s] *)

Inductive atom :=
| Bol                     (* [^] *)
| Eol                     (* [$] *)
| Chr (c : char)          (* a literal character *)
| Star (cls : cclass)     (* [x*]  *)
| StarLazy (cls : cclass) (* [x*?] *)
| Open (g : nat)          (* [(] of group [g] *)
| Close (g : nat).        (* [)] of group [g] *)

Definition regex := list atom.

(** A run of literal characters. *)
Definition Lit (s : string) : regex := map Chr (lit s).

Record flags := { DOTALL : bool }.

(** Without [re.DOTALL] the dot matches everything but a line feed. *)
Definition in_class (f : flags) (cls : cclass) (c : char) : bool :=
  match cls with
  | Dot => DOTALL f || negb (char_eqb c NL)
  | Space => isspace c
  end.

(** A mark: group number, [true] for its end, position. *)
Definition mark := (nat * bool * nat)%type.

Section Engine.
Variable R : Type.

(** [k] is the rest of the pattern; [p] the current position and [s] the
    text from there on. *)
Fixpoint star_greedy (ok : char -> bool) (k : nat -> str -> option R)
         (p : nat) (s : str) : option R :=
  match s with
  | c :: s' =>
      if ok c then
        match star_greedy ok k (S p) s' with
        | Some r => Some r
        | None => k p s
        end
      else k p s
  | [] => k p s
  end.

Fixpoint star_lazy (ok : char -> bool) (k : nat -> str -> option R)
         (p : nat) (s : str) : option R :=
  match k p s with
  | Some r => Some r
  | None =>
      match s with
      | c :: s' => if ok c then star_lazy ok k (S p) s' else None
      | [] => None
      end
  end.

End Engine.

(** [run f re marks p s]: match [re] at position [p], where the text that
    remains is [s]; the result is the end position and the marks. *)
Fixpoint run (f : flags) (re : regex) (marks : list mark) (p : nat) (s : str)
  : option (nat * list mark) :=
  match re with
  | [] => Some (p, marks)
  | a :: re' =>
      match a with
      | Bol => if Nat.eqb p 0 then run f re' marks p s else None
      | Eol =>
          (* the end of the text, or just before a line feed that ends it *)
          match s with
          | [] => run f re' marks p s
          | [c] => if char_eqb c NL then run f re' marks p s else None
          | _ => None
          end
      | Chr c =>
          match s with
          | c' :: s' => if char_eqb c' c then run f re' marks (S p) s' else None
          | [] => None
          end
      | Star cls => star_greedy (in_class f cls) (run f re' marks) p s
      | StarLazy cls => star_lazy (in_class f cls) (run f re' marks) p s
      | Open g => run f re' ((g, false, p) :: marks) p s
      | Close g => run f re' ((g, true, p) :: marks) p s
      end
  end.

(** A match object. *)
Record match_obj := {
  m_string : str;
  m_start : nat;
  m_end : nat;
  m_marks : list mark
}.

Fixpoint mark_pos (g : nat) (closing : bool) (marks : list mark) : nat :=
  match marks with
  | [] => 0
  | (g', b, p) :: marks' =>
      if Nat.eqb g' g && Bool.eqb b closing then p else mark_pos g closing marks'
  end.

(** [m.group(g)] for a group that took part in the match. *)
Definition group (m : match_obj) (g : nat) : str :=
  slice (m_string m) (mark_pos g false (m_marks m)) (mark_pos g true (m_marks m)).

(** [m.start()] *)
Definition start (m : match_obj) : nat := m_start m.

(** [re.match(re, s, flags)]: a match that begins at position 0. *)
Definition re_match (f : flags) (re : regex) (s : str) : option match_obj :=
  match run f re [] 0 s with
  | Some (e, marks) =>
      Some {| m_string := s; m_start := 0; m_end := e; m_marks := marks |}
  | None => None
  end.

(** [re.search(re, s, flags)]: the first position, from the left, where a
    match begins. *)
Fixpoint search_from (f : flags) (re : regex) (whole : str) (p : nat) (s : str)
  : option match_obj :=
  match run f re [] p s with
  | Some (e, marks) =>
      Some {| m_string := whole; m_start := p; m_end := e; m_marks := marks |}
  | None =>
      match s with
      | [] => None
      | _ :: s' => search_from f re whole (S p) s'
      end
  end.

Definition re_search (f : flags) (re : regex) (s : str) : option match_obj :=
  search_from f re s 0 s.

End Re.

(* ===================================================================== *)
(** * Dictionaries *)
(* ===================================================================== *)

(** A Python [dict] with [str] keys: the entries in insertion order.
    Assigning to a key that is present keeps its place and changes its
    value. *)
Definition dict := list (str * str).

(** [d[k] = v] *)
Fixpoint dict_set (d : dict) (k v : str) : dict :=
  match d with
  | [] => [(k, v)]
  | (k', v') :: d' =>
      if str_eqb k' k then (k', v) :: d' else (k', v') :: dict_set d' k v
  end.

Fixpoint dict_lookup (d : dict) (k : str) : option str :=
  match d with
  | [] => None
  | (k', v') :: d' => if str_eqb k' k then Some v' else dict_lookup d' k
  end.

(** [d.get(k, default)] *)
Definition dict_get (d : dict) (k default : str) : str :=
  match dict_lookup d k with
  | Some v => v
  | None => default
  end.

(** [d.items()] *)
Definition items (d : dict) : list (str * str) := d.

(* ===================================================================== *)
(** * Exceptions *)
(* ===================================================================== *)

Inductive exn :=
| ValueError (msg : str)
| SystemExit (code : nat)
| FileNotFoundError (path : str).

Inductive result (A : Type) :=
| Ok (a : A)
| Raise (e : exn).
Arguments Ok {A} a.
Arguments Raise {A} e.

(* ===================================================================== *)
(** * parse_page *)
(* ===================================================================== *)

Import Re.

Definition re_DOTALL : flags := {| DOTALL := true |}.

(** The patterns of [parse_page], atom by atom (the comments separate the
    atoms by blanks, the patterns have none).

    Frontmatter:  ^  ---\n  (  .*?  )  \n---\n  (  .*  )  $ *)
Definition FRONTMATTER_RE : regex :=
  [Bol] ++ Lit "---\n" ++ [Open 1; StarLazy Dot; Close 1] ++ Lit "\n---\n"
  ++ [Open 2; Star Dot; Close 2; Eol].

(** Leading style block:  \s*  <style>  (  .*?  )  </style>  \s*  (  .*  ) *)
Definition STYLE_RE : regex :=
  [Star Space] ++ Lit "<style>" ++ [Open 1; StarLazy Dot; Close 1]
  ++ Lit "</style>" ++ [Star Space; Open 2; Star Dot; Close 2].

(** Trailing script block(s):  (  \s*  <script>  .*  </script>  \s*  )  $ *)
Definition SCRIPT_RE : regex :=
  [Open 1; Star Space] ++ Lit "<script>" ++ [Star Dot] ++ Lit "</script>"
  ++ [Star Space; Close 1; Eol].

Definition page := (dict * str * str * str)%type.

(** The loop over the lines of the frontmatter:
    [key, _, val = line.partition(':'); meta[key.strip()] = val.strip()]. *)
Definition parse_meta (frontmatter : str) : dict :=
  fold_left
    (fun meta line =>
       let '(key, _, val) := partition COLON line in
       dict_set meta (strip key) (strip val))
    (split NL (strip frontmatter)) [].

Definition parse_page (content : str) : result page :=
  (* Extract frontmatter *)
  match re_match re_DOTALL FRONTMATTER_RE content with
  | None => Raise (ValueError (lit "page missing --- frontmatter ---"))
  | Some m =>
      let meta := parse_meta (group m 1) in
      let rest := group m 2 in
      (* Extract leading <style>...</style> block *)
      let page_css := [] in
      let '(page_css, rest) :=
        match re_match re_DOTALL STYLE_RE rest with
        | Some sm => (group sm 1, group sm 2)
        | None => (page_css, rest)
        end in
      (* Extract trailing <script>...</script> block(s) *)
      let page_js := [] in
      let '(page_js, rest) :=
        match re_search re_DOTALL SCRIPT_RE rest with
        | Some jm => (group jm 1, firstn (start jm) rest)
        | None => (page_js, rest)
        end in
      Ok (meta, page_css, strip rest, page_js)
  end.

(* ===================================================================== *)
(** * build *)
(* ===================================================================== *)

Definition ACTIVE_MARK : str := lit "class=" ++ [DQUOTE] ++ lit "active" ++ [DQUOTE].

Definition nav_keys : list str :=
  [lit "index"; lit "config"; lit "channels"; lit "tools"; lit "workspace";
   lit "deploy"; lit "cli"].

(** The dictionary [nav_replacements] that the loop over [nav_keys] fills,
    for a page whose [active] is given. *)
Definition nav_replacements (active : str) : dict :=
  fold_left
    (fun d key =>
       dict_set d (lit "{{NAV_" ++ upper key ++ lit "}}")
                (if str_eqb key active then ACTIVE_MARK else []))
    nav_keys [].

(** The text that [build] writes for one page: the body of its loop from
    the computation of [active] to the last [html.replace]. *)
Definition fill_layout (layout : str) (p : page) : str :=
  let '(meta, page_css, body, page_js) := p in
  (* Build nav active attributes *)
  let active := dict_get meta (lit "active") [] in
  let nav_replacements := nav_replacements active in
  let html := layout in
  let html := replace (lit "{{TITLE}}") (dict_get meta (lit "title") (lit "oxicrab")) html in
  let html := replace (lit "{{DESCRIPTION}}") (dict_get meta (lit "description") []) html in
  let html := replace (lit "{{MAX_WIDTH}}") (dict_get meta (lit "max_width") (lit "820px")) html in
  let html := replace (lit "{{PAGE_CSS}}") page_css html in
  let html := replace (lit "{{BODY}}") body html in
  let html := replace (lit "{{PAGE_JS}}") page_js html in
  fold_left (fun html '(placeholder, value) => replace placeholder value html)
            (items nav_replacements) html.

(** ** The world of the script

    The script reads [DOCS_DIR/_layout.html] and the files of
    [DOCS_DIR/_pages], writes files of [DOCS_DIR] and prints lines.  The
    world holds the regular files of the two directories by name, each with
    the text that [f.read()] returns for it (the decoding of the bytes and
    the translation of line ends are not modelled), and the lines printed
    so far.
    The names that [os.listdir] returns have no directory part, so a path
    [os.path.join(dir, name)] is the file [name] of [dir].

    Opening a file that is not there, or listing a directory that is not
    there, raises [FileNotFoundError]; reading a file that is there and
    writing a file of [DOCS_DIR] succeed.  Other failures of the file
    system (permissions, a directory where a file is expected, a full
    disk) are outside the model. *)
Record World := {
  docs_dir : str;              (* [DOCS_DIR] *)
  docs_files : dict;           (* the files of [DOCS_DIR] *)
  pages_files : option dict;   (* the files of [PAGES_DIR]; [None]: no such directory *)
  stdout : list str            (* the lines printed, the last one first *)
}.

Inductive path :=
| InDocs (name : str)    (* [os.path.join(DOCS_DIR, name)] *)
| InPages (name : str)   (* [os.path.join(PAGES_DIR, name)] *)
| PagesDir.              (* [PAGES_DIR] *)

(** [os.path.join(a, b)] for a relative [b]. *)
Definition path_join (a b : str) : str :=
  match a with
  | [] => b
  | _ => if endswith (lit "/") a then a ++ b else a ++ lit "/" ++ b
  end.

Definition path_str (w : World) (p : path) : str :=
  match p with
  | InDocs name => path_join (docs_dir w) name
  | InPages name => path_join (path_join (docs_dir w) (lit "_pages")) name
  | PagesDir => path_join (docs_dir w) (lit "_pages")
  end.

Definition LAYOUT_PATH : path := InDocs (lit "_layout.html").
Definition PAGES_DIR : path := PagesDir.

(** ** A state and exception monad for the script *)
Definition M (A : Type) : Type := World -> result A * World.

Definition ret {A} (a : A) : M A := fun w => (Ok a, w).

Definition bind {A B} (c : M A) (k : A -> M B) : M B :=
  fun w =>
    match c w with
    | (Ok a, w') => k a w'
    | (Raise e, w') => (Raise e, w')
    end.

Definition raise {A} (e : exn) : M A := fun w => (Raise e, w).

(** A call of a function that touches neither the files nor the output. *)
Definition lift {A} (r : result A) : M A := fun w => (r, w).

Notation "x <- c ;; k" := (bind c (fun x => k))
  (at level 61, c at next level, right associativity).
Notation "c ;; k" := (bind c (fun _ => k))
  (at level 61, right associativity).

(** [with open(p) as f: f.read()] *)
Definition read_file (p : path) : M str :=
  fun w =>
    let found :=
      match p with
      | InDocs name => dict_lookup (docs_files w) name
      | InPages name =>
          match pages_files w with
          | Some d => dict_lookup d name
          | None => None
          end
      | PagesDir => None
      end in
    match found with
    | Some text => (Ok text, w)
    | None => (Raise (FileNotFoundError (path_str w p)), w)
    end.

(** [with open(p, 'w') as f: f.write(text)] for a file of [DOCS_DIR]: the
    file is created, or its text replaced. *)
Definition write_file (name : str) (text : str) : M unit :=
  fun w =>
    (Ok tt, {| docs_dir := docs_dir w;
               docs_files := dict_set (docs_files w) name text;
               pages_files := pages_files w;
               stdout := stdout w |}).

(** [os.listdir(PAGES_DIR)] *)
Definition listdir_pages : M (list str) :=
  fun w =>
    match pages_files w with
    | Some d => (Ok (map fst d), w)
    | None => (Raise (FileNotFoundError (path_str w PAGES_DIR)), w)
    end.

(** [print(line)] *)
Definition print (line : str) : M unit :=
  fun w =>
    (Ok tt, {| docs_dir := docs_dir w;
               docs_files := docs_files w;
               pages_files := pages_files w;
               stdout := line :: stdout w |}).

(** [sys.exit(code)] *)
Definition sys_exit {A} (code : nat) : M A := raise (SystemExit code).

Definition get_path_str (p : path) : M str := fun w => (Ok (path_str w p), w).

Fixpoint for_each {A} (l : list A) (body : A -> M unit) : M unit :=
  match l with
  | [] => ret tt
  | x :: l' => body x ;; for_each l' body
  end.

(** ** [sorted] on strings: the order of [str] is the lexicographic order
    of the code points. *)
Fixpoint str_leb (a b : str) : bool :=
  match a, b with
  | [], _ => true
  | _ :: _, [] => false
  | x :: a', y :: b' => (x <? y)%N || (char_eqb x y && str_leb a' b')
  end.

Fixpoint insert_sorted (x : str) (l : list str) : list str :=
  match l with
  | [] => [x]
  | y :: l' => if str_leb x y then x :: l else y :: insert_sorted x l'
  end.

Definition sorted (l : list str) : list str := fold_right insert_sorted [] l.

(** The body of the loop of [build] for one page. *)
Definition build_page (layout filename : str) : M unit :=
  source <- read_file (InPages filename) ;;
  p <- lift (parse_page source) ;;
  let html := fill_layout layout p in
  write_file filename html ;;
  print (lit "  built " ++ filename).

Definition build : M unit :=
  layout <- read_file LAYOUT_PATH ;;
  names <- listdir_pages ;;
  let pages := sorted (filter (endswith (lit ".html")) names) in
  match pages with
  | [] =>
      pages_dir <- get_path_str PAGES_DIR ;;
      print (lit "No pages found in" ++ lit " " ++ pages_dir) ;;
      sys_exit 1
  | _ :: _ =>
      for_each pages (build_page layout) ;;
      print (lit "Done " ++ DONE_DASH ++ lit " " ++ str_of_nat (length pages) ++ lit " pages")
  end.

(** The exit status of the process: [sys.exit(n)] gives [n], any other
    exception that nothing catches gives 1. *)
Definition exit_status (r : result unit) : nat :=
  match r with
  | Ok _ => 0
  | Raise (SystemExit n) => n
  | Raise _ => 1
  end.

(* ===================================================================== *)
(** * Vocabulary of the statements *)
(* ===================================================================== *)

(** ** The steps of [parse_page] after the frontmatter *)

(** The style step: the page CSS and the content that remains. *)
Definition extract_style (rest : str) : str * str :=
  match re_match re_DOTALL STYLE_RE rest with
  | Some sm => (group sm 1, group sm 2)
  | None => ([], rest)
  end.

(** The script step: the page JS and the content that remains. *)
Definition extract_script (rest : str) : str * str :=
  match re_search re_DOTALL SCRIPT_RE rest with
  | Some jm => (group jm 1, firstn (start jm) rest)
  | None => ([], rest)
  end.

Definition FM_OPEN : str := lit "---\n".
Definition FM_CLOSE : str := lit "\n---\n".
Definition SCRIPT_OPEN : str := lit "<script>".
Definition SCRIPT_CLOSE : str := lit "</script>".

(** ** Layouts as pieces

    A layout read as literal text and placeholder tokens [{{NAME}}]. *)
Inductive piece :=
| Text (t : str)
| Token (name : str).

Definition token (name : str) : str := lit "{{" ++ name ++ lit "}}".

Definition piece_text (pc : piece) : str :=
  match pc with
  | Text t => t
  | Token name => token name
  end.

Definition flatten (l : list piece) : str := flat_map piece_text l.

(** [safe t]: every left brace of [t] is followed, in [t], by a character
    that is not a left brace; so [t] has no two left braces in a row and
    does not end in one. *)
Fixpoint safe (t : str) : bool :=
  match t with
  | [] => true
  | c :: t' =>
      (negb (char_eqb c LBRACE)
       || match t' with
          | [] => false
          | c' :: _ => negb (char_eqb c' LBRACE)
          end)
      && safe t'
  end.

Definition brace_free (name : str) : bool :=
  forallb (fun c => negb (char_eqb c LBRACE) && negb (char_eqb c RBRACE)) name.

Definition wf_piece (pc : piece) : bool :=
  match pc with
  | Text t => safe t
  | Token name => brace_free name
  end.

(** The names of the placeholders that [build] replaces, in the order of
    its replacements, each with the value a page gives it. *)
Definition substitutions (p : page) : list (str * str) :=
  let '(meta, page_css, body, page_js) := p in
  [ (lit "TITLE", dict_get meta (lit "title") (lit "oxicrab"));
    (lit "DESCRIPTION", dict_get meta (lit "description") []);
    (lit "MAX_WIDTH", dict_get meta (lit "max_width") (lit "820px"));
    (lit "PAGE_CSS", page_css);
    (lit "BODY", body);
    (lit "PAGE_JS", page_js) ]
  ++ map (fun key =>
            (lit "NAV_" ++ upper key,
             if str_eqb key (dict_get meta (lit "active") [])
             then ACTIVE_MARK else []))
         nav_keys.

Definition placeholder_names : list str :=
  [lit "TITLE"; lit "DESCRIPTION"; lit "MAX_WIDTH"; lit "PAGE_CSS"; lit "BODY";
   lit "PAGE_JS"]
  ++ map (fun key => lit "NAV_" ++ upper key) nav_keys.

(** The values a page inserts are all [safe]. *)
Definition safe_values (p : page) : bool :=
  forallb (fun kv => safe (snd kv)) (substitutions p).

(** A piece after the substitutions [subs]: a token whose name is among
    them becomes its value, every other piece stays. *)
Definition expand (subs : list (str * str)) (pc : piece) : piece :=
  match pc with
  | Text t => Text t
  | Token name =>
      match dict_lookup subs name with
      | Some v => Text v
      | None => Token name
      end
  end.

(** The replacements of [build], one after the other. *)
Definition apply_substitutions (subs : list (str * str)) (layout : str) : str :=
  fold_left (fun html kv => replace (token (fst kv)) (snd kv) html) subs layout.

(** The placeholders that get a value of the page, and the navigation
    placeholders with the values that [build] gives them for a page whose
    [active] is given. *)
Definition page_placeholders : list str :=
  [lit "TITLE"; lit "DESCRIPTION"; lit "MAX_WIDTH"; lit "PAGE_CSS"; lit "BODY";
   lit "PAGE_JS"].

Definition nav_substitutions (active : str) : list (str * str) :=
  map (fun key =>
         (lit "NAV_" ++ upper key,
          if str_eqb key active then ACTIVE_MARK else []))
      nav_keys.

(** No token of the layout is one of the six placeholders of the page. *)
Definition no_page_token (l : list piece) : bool :=
  forallb (fun pc =>
             match pc with
             | Text _ => true
             | Token name => negb (existsb (str_eqb name) page_placeholders)
             end) l.

(** No occurrence of [old] in [t ++ r] begins inside [t]. *)
Definition no_start (old t r : str) : Prop :=
  forall t1 c t2, t = t1 ++ c :: t2 -> startswith old (c :: t2 ++ r) = false.

(** ** The run of [build] over the pages, as a function *)

(** The text written for the page [f] of the directory [d]. *)
Definition page_html (layout : str) (d : dict) (f : str) : str :=
  match dict_lookup d f with
  | Some source =>
      match parse_page source with
      | Ok p => fill_layout layout p
      | Raise _ => []
      end
  | None => []
  end.

(** The pages that are written, in order, and how the loop ends. *)
Fixpoint run_pages (dir : str) (d : dict) (pages : list str)
  : list str * result unit :=
  match pages with
  | [] => ([], Ok tt)
  | f :: pages' =>
      match dict_lookup d f with
      | None =>
          ([], Raise (FileNotFoundError
                        (path_join (path_join dir (lit "_pages")) f)))
      | Some source =>
          match parse_page source with
          | Raise e => ([], Raise e)
          | Ok _ =>
              let '(done, r) := run_pages dir d pages' in (f :: done, r)
          end
      end
  end.

Definition write_all (layout : str) (d : dict) (done : list str) (docs : dict)
  : dict :=
  fold_left (fun docs f => dict_set docs f (page_html layout d f)) done docs.

(** The list of pages that [build] works on. *)
Definition page_list (d : dict) : list str :=
  sorted (filter (endswith (lit ".html")) (map fst d)).

(** The lines printed for the pages written, the last one first. *)
Definition built_lines (done : list str) : list str :=
  rev (map (fun f => lit "  built " ++ f) done).

Definition LAYOUT_NAME : str := lit "_layout.html".

(** How [build] ends, and the files of [DOCS_DIR] after it. *)
Definition build_result (w : World) : result unit :=
  match dict_lookup (docs_files w) LAYOUT_NAME with
  | None => Raise (FileNotFoundError (path_join (docs_dir w) LAYOUT_NAME))
  | Some _ =>
      match pages_files w with
      | None => Raise (FileNotFoundError (path_join (docs_dir w) (lit "_pages")))
      | Some d =>
          match page_list d with
          | [] => Raise (SystemExit 1)
          | _ :: _ => snd (run_pages (docs_dir w) d (page_list d))
          end
      end
  end.

Definition build_docs (w : World) : dict :=
  match dict_lookup (docs_files w) LAYOUT_NAME, pages_files w with
  | Some layout, Some d =>
      write_all layout d (fst (run_pages (docs_dir w) d (page_list d)))
                (docs_files w)
  | _, _ => docs_files w
  end.

Definition str_le (a b : str) : Prop := str_leb a b = true.

(** ** The example of the specification *)
Definition EXAMPLE_PAGE : str :=
  lit "---\ntitle: Config\nactive: config\n---\n<style>.x{color:red}</style>\n<p>Hello</p>\n<script>console.log(1)</script>\n".

Definition EXAMPLE_JS : str := lit "\n<script>console.log(1)</script>\n".

Definition EXAMPLE_PARSED : page :=
  ([(lit "title", lit "Config"); (lit "active", lit "config")],
   lit ".x{color:red}", lit "<p>Hello</p>", EXAMPLE_JS).

(** A layout with every placeholder. *)
Definition EXAMPLE_LAYOUT : str :=
  lit "<title>{{TITLE}}</title><meta content=[{{DESCRIPTION}}]><style>main{max-width:{{MAX_WIDTH}}}{{PAGE_CSS}}</style><nav><a {{NAV_INDEX}}>index</a><a {{NAV_CONFIG}}>config</a><a {{NAV_CHANNELS}}>channels</a><a {{NAV_TOOLS}}>tools</a><a {{NAV_WORKSPACE}}>workspace</a><a {{NAV_DEPLOY}}>deploy</a><a {{NAV_CLI}}>cli</a></nav><body>{{BODY}}</body>{{PAGE_JS}}".

Definition EXAMPLE_OUTPUT : str :=
  lit "<title>Config</title><meta content=[]><style>main{max-width:820px}.x{color:red}</style><nav><a >index</a><a "
  ++ ACTIVE_MARK
  ++ lit ">config</a><a >channels</a><a >tools</a><a >workspace</a><a >deploy</a><a >cli</a></nav><body><p>Hello</p></body>\n<script>console.log(1)</script>\n".

Definition EXAMPLE_PIECES : list piece :=
  [Text (lit "<title>"); Token (lit "TITLE");
   Text (lit "</title><style>main{max-width:"); Token (lit "MAX_WIDTH");
   Text (lit "}"); Token (lit "PAGE_CSS"); Text (lit "</style><a ");
   Token (lit "NAV_CONFIG"); Text (lit "><body>"); Token (lit "BODY");
   Text (lit "</body>"); Token (lit "PAGE_JS"); Token (lit "FOOTER")].

(** A page that sets [max_width], and one that writes the key with a
    hyphen. *)
Definition WIDE_PAGE : str := lit "---\ntitle: Wide\nmax_width: 1000px\n---\n<p>wide</p>\n".
Definition HYPHEN_PAGE : str := lit "---\ntitle: Wide\nmax-width: 1000px\n---\n<p>wide</p>\n".

(** A page whose body quotes a placeholder. *)
Definition QUOTING_PAGE : str := lit "---\ntitle: T\n---\n<p>{{TITLE}}</p>\n".

(** A page with two script blocks and markup between them. *)
Definition TWO_SCRIPTS_PAGE : str :=
  lit "---\ntitle: T\n---\n<p>body</p>\n<script>a()</script>\n<p>between</p>\n<script>b()</script>\n".

Definition MISSING_FRONTMATTER : exn :=
  ValueError (lit "page missing --- frontmatter ---").

(** A small site: a layout and two pages, the second one without
    frontmatter, and a file that is no page. *)
Definition SITE : World :=
  {| docs_dir := lit "/repo/docs";
     docs_files := [(lit "_layout.html", lit "<title>{{TITLE}}</title>{{BODY}}");
                    (lit "b.html", lit "stale")];
     pages_files := Some [(lit "b.html", lit "no frontmatter here");
                          (lit "a.html", EXAMPLE_PAGE);
                          (lit "notes.txt", lit "---\n---\n");
                          (lit "c.html", WIDE_PAGE)];
     stdout := [] |}.

Definition EMPTY_SITE : World :=
  {| docs_dir := lit "/repo/docs";
     docs_files := [(lit "_layout.html", lit "<title>{{TITLE}}</title>{{BODY}}")];
     pages_files := Some [(lit "notes.txt", lit "---\n---\n")];
     stdout := [] |}.

Definition GOOD_SITE : World :=
  {| docs_dir := lit "/repo/docs";
     docs_files := [(lit "_layout.html", lit "<title>{{TITLE}}</title>{{BODY}}")];
     pages_files := Some [(lit "c.html", WIDE_PAGE); (lit "a.html", EXAMPLE_PAGE)];
     stdout := [] |}.

(** ** Further vocabulary: the steps of the parser, line by line *)

Definition STYLE_OPEN : str := lit "<style>".
Definition STYLE_CLOSE : str := lit "</style>".

(** The key and the value that a line of the frontmatter gives. *)
Definition line_key (line : str) : str := strip (fst (fst (partition COLON line))).
Definition line_val (line : str) : str := strip (snd (partition COLON line)).

(** A frontmatter with a key given twice, and its lines. *)
Definition TWICE_FRONTMATTER : str := lit "title: One\nmax_width: 900px\ntitle: Two: the sequel ".

(** Content with a style block, and content whose style block is not at
    its start. *)
Definition STYLED_CONTENT : str := lit "\n <style>.a{b:c}</style>\n\n<p>x</p></style>\n".
Definition LATE_STYLE_CONTENT : str := lit "<p>x</p><style>.a{b:c}</style>".

(** Content whose script block is followed by markup. *)
Definition EARLY_SCRIPT_CONTENT : str := lit "<p>x</p>\n<script>a()</script>\n<p>after</p>\n".
Definition SCRIPT_CONTENT : str := lit "<p>x</p> \n<script>a()</script><b></b><script>b()</script> \n".

(** A site whose pages directory holds a page named as the layout. *)
Definition ALIAS_SITE : World :=
  {| docs_dir := lit "/repo/docs";
     docs_files := [(lit "_layout.html", lit "<title>{{TITLE}}</title>{{BODY}}")];
     pages_files := Some [(lit "_layout.html", WIDE_PAGE)];
     stdout := [] |}.

Definition NO_LAYOUT_SITE : World :=
  {| docs_dir := lit "/repo/docs";
     docs_files := [(lit "a.html", lit "old")];
     pages_files := Some [(lit "a.html", EXAMPLE_PAGE)];
     stdout := [] |}.

Definition NO_PAGES_DIR_SITE : World :=
  {| docs_dir := lit "/repo/docs";
     docs_files := [(lit "_layout.html", lit "<title>{{TITLE}}</title>{{BODY}}")];
     pages_files := None;
     stdout := [] |}.

(* ===================================================================== *)
(** * Strings: lemmas *)
(* ===================================================================== *)

Lemma char_eqb_eq (a b : char) : char_eqb a b = true <-> a = b.
Proof. apply N.eqb_eq. Qed.

Lemma char_eqb_refl (a : char) : char_eqb a a = true.
Proof. apply N.eqb_refl. Qed.

Lemma str_eqb_eq (a b : str) : str_eqb a b = true <-> a = b.
Proof.
  revert b; induction a as [|x a IH]; intros [|y b]; simpl; split;
    try congruence; try discriminate.
  - intros H. apply andb_true_iff in H as [Hx Hab].
    apply char_eqb_eq in Hx. apply IH in Hab. congruence.
  - intros H. injection H as -> ->.
    rewrite char_eqb_refl. simpl. now apply IH.
Qed.

Lemma str_eqb_refl (a : str) : str_eqb a a = true.
Proof. now apply str_eqb_eq. Qed.

Lemma str_eqb_neq (a b : str) : str_eqb a b = false <-> a <> b.
Proof.
  split.
  - intros H E. apply str_eqb_eq in E. congruence.
  - intros H. destruct (str_eqb a b) eqn:E; trivial.
    apply str_eqb_eq in E. contradiction.
Qed.

Lemma skipn_length_app {A} (a b : list A) : skipn (length a) (a ++ b) = b.
Proof. induction a; simpl; trivial. Qed.

Lemma startswith_app (p r : str) : startswith p (p ++ r) = true.
Proof.
  induction p as [|x p IH]; simpl; trivial.
  now rewrite char_eqb_refl.
Qed.

Lemma startswith_split (p s : str) :
  startswith p s = true -> s = p ++ skipn (length p) s.
Proof.
  revert s; induction p as [|x p IH]; intros [|y s]; simpl; trivial;
    try discriminate.
  intros H. apply andb_true_iff in H as [Hx Hp].
  apply char_eqb_eq in Hx. subst y. f_equal. now apply IH.
Qed.

Lemma startswith_nil_r (p : str) : p <> [] -> startswith p [] = false.
Proof. destruct p; simpl; congruence. Qed.

(** ** [find] *)

Lemma find_Some_split (sub s : str) (i : nat) :
  find sub s = Some i ->
  s = firstn i s ++ sub ++ skipn (i + length sub) s.
Proof.
  revert i; induction s as [|c s IH]; intros i; simpl.
  - destruct (startswith sub []) eqn:E; [|discriminate].
    intros [= <-]. simpl. destruct sub; [reflexivity|discriminate].
  - destruct (startswith sub (c :: s)) eqn:E.
    + intros [= <-]. simpl. now apply startswith_split in E.
    + destruct (find sub s) as [j|] eqn:F; simpl; [|discriminate].
      intros [= <-]. simpl. f_equal. now apply IH.
Qed.

Lemma find_unfold (sub s : str) :
  find sub s =
  if startswith sub s then Some 0
  else match s with
       | [] => None
       | _ :: s' => option_map S (find sub s')
       end.
Proof. destruct s; reflexivity. Qed.

Lemma find_app_Some (sub a b : str) : find sub (a ++ sub ++ b) <> None.
Proof.
  induction a as [|c a IH].
  - simpl. rewrite find_unfold, startswith_app. discriminate.
  - simpl. destruct (startswith sub (c :: a ++ sub ++ b)); [discriminate|].
    destruct (find sub (a ++ sub ++ b)); simpl; congruence.
Qed.

Lemma find_no_start (old t r : str) (i : nat) :
  find old (t ++ r) = Some i -> length t <= i -> no_start old t r.
Proof.
  revert i; induction t as [|x t IH]; intros i F L t1 c t2 E.
  - destruct t1; discriminate.
  - simpl in F.
    destruct (startswith old (x :: t ++ r)) eqn:S0.
    + injection F as <-. simpl in L. lia.
    + destruct (find old (t ++ r)) as [j|] eqn:Fj; simpl in F; [|discriminate].
      injection F as <-. simpl in L.
      destruct t1 as [|y t1]; simpl in E; injection E as -> ->.
      * exact S0.
      * eapply IH; eauto. lia.
Qed.

Lemma find_app_l (old t r : str) :
  no_start old t r -> find old (t ++ r) = option_map (Nat.add (length t)) (find old r).
Proof.
  induction t as [|x t IH]; intros H; simpl.
  - destruct (find old r); reflexivity.
  - rewrite (H [] x t eq_refl).
    rewrite IH.
    + destruct (find old r); reflexivity.
    + intros t1 c t2 E. apply (H (x :: t1) c t2). simpl. now rewrite E.
Qed.

(** ** [replace] *)

Lemma replace_from_skip (old new : str) (n : nat) (s : str) :
  replace_from old new n s = replace_from old new 0 (skipn n s).
Proof.
  revert n; induction s as [|c s IH]; intros [|n]; simpl; trivial.
Qed.

Lemma replace_hit (old new s : str) :
  old <> [] -> startswith old s = true ->
  replace old new s = new ++ replace old new (skipn (length old) s).
Proof.
  intros Hne H. destruct old as [|o old]; [congruence|].
  unfold replace. destruct s as [|c s]; [discriminate|].
  cbn [replace_from]. rewrite H. f_equal.
  rewrite replace_from_skip. simpl. now rewrite Nat.sub_0_r.
Qed.

Lemma replace_miss (old new : str) (c : char) (s : str) :
  old <> [] -> startswith old (c :: s) = false ->
  replace old new (c :: s) = c :: replace old new s.
Proof.
  intros Hne H. destruct old as [|o old]; [congruence|].
  unfold replace. cbn [replace_from]. now rewrite H.
Qed.

Lemma replace_nil (old new : str) : old <> [] -> replace old new [] = [].
Proof. destruct old; [congruence|reflexivity]. Qed.

Lemma replace_app_l (old new t r : str) :
  old <> [] -> no_start old t r ->
  replace old new (t ++ r) = t ++ replace old new r.
Proof.
  intros Hne. induction t as [|x t IH]; intros H; simpl; trivial.
  rewrite replace_miss; trivial.
  - f_equal. apply IH. intros t1 c t2 E. apply (H (x :: t1) c t2).
    simpl. now rewrite E.
  - apply (H [] x t eq_refl).
Qed.

(* ===================================================================== *)
(** * The engine: lemmas *)
(* ===================================================================== *)

Lemma run_lits (f : flags) (l : str) (re : regex) (marks : list mark)
      (p : nat) (s : str) :
  run f (map Chr l ++ re) marks p s
  = if startswith l s
    then run f re marks (p + length l) (skipn (length l) s)
    else None.
Proof.
  revert p s; induction l as [|x l IH]; intros p s.
  - simpl. now rewrite Nat.add_0_r.
  - destruct s as [|c s]; [reflexivity|].
    cbn [map app run startswith length skipn].
    unfold char_eqb at 1 2. rewrite (N.eqb_sym c x).
    destruct (N.eqb x c); cbn [andb]; trivial.
    rewrite IH. now rewrite Nat.add_succ_comm.
Qed.

Section StarLemmas.
Variable R : Type.
Variable k : nat -> str -> option R.

Lemma star_greedy_to_end (ok : char -> bool) (p : nat) (s : str) (r : R) :
  (forall c, ok c = true) ->
  k (p + length s) [] = Some r ->
  star_greedy ok k p s = Some r.
Proof.
  intros Hok. revert p; induction s as [|c s IH]; intros p H; simpl in *.
  - now rewrite Nat.add_0_r in H.
  - rewrite Hok. rewrite (IH (S p)); trivial.
    now rewrite Nat.add_succ_comm.
Qed.

Lemma star_greedy_inv (ok : char -> bool) (p : nat) (s : str) (r : R) :
  star_greedy ok k p s = Some r ->
  exists s1 s2, s = s1 ++ s2 /\ k (p + length s1) s2 = Some r.
Proof.
  revert p; induction s as [|c s IH]; intros p H; simpl in H.
  - exists [], []. simpl. now rewrite Nat.add_0_r.
  - assert (k p (c :: s) = Some r ->
            exists s1 s2, c :: s = s1 ++ s2 /\ k (p + length s1) s2 = Some r) as Here.
    { intros E. exists [], (c :: s). simpl. now rewrite Nat.add_0_r. }
    destruct (ok c); [|auto].
    destruct (star_greedy ok k (S p) s) as [r'|] eqn:E; [|auto].
    injection H as ->. apply IH in E as (s1 & s2 & -> & E).
    exists (c :: s1), s2. simpl. now rewrite <- Nat.add_succ_comm.
Qed.

Lemma star_greedy_some (ok : char -> bool) (p : nat) (s1 s2 : str) :
  forallb ok s1 = true ->
  k (p + length s1) s2 <> None ->
  star_greedy ok k p (s1 ++ s2) <> None.
Proof.
  revert p; induction s1 as [|c s1 IH]; intros p Hok H.
  - simpl in *. rewrite Nat.add_0_r in H.
    destruct s2 as [|c s2]; simpl; trivial.
    destruct (ok c); trivial.
    destruct (star_greedy ok k (S p) s2); [discriminate|trivial].
  - simpl in Hok. apply andb_true_iff in Hok as [Hc Hok].
    simpl. rewrite Hc.
    specialize (IH (S p) Hok). simpl in H. rewrite <- Nat.add_succ_comm in H.
    specialize (IH H).
    destruct (star_greedy ok k (S p) (s1 ++ s2)); [discriminate|contradiction].
Qed.

(** A greedy [\s*] before something that cannot begin with white space
    takes all the white space there is. *)
Lemma star_greedy_lstrip (p : nat) (s : str) :
  (forall q c t, isspace c = true -> k q (c :: t) = None) ->
  star_greedy isspace k p s
  = k (p + (length s - length (lstrip s))) (lstrip s).
Proof.
  intros Hk. revert p; induction s as [|c s IH]; intros p.
  - simpl. now rewrite Nat.add_0_r.
  - assert (length (lstrip s) <= length s) as L.
    { clear. induction s as [|x s IH]; simpl; trivial.
      destruct (isspace x); simpl; lia. }
    cbn [star_greedy lstrip]. destruct (isspace c) eqn:E.
    + rewrite IH.
      replace (p + (length (c :: s) - length (lstrip s)))
        with (S p + (length s - length (lstrip s))) by (cbn [length]; lia).
      destruct (k _ (lstrip s)); trivial. now apply Hk.
    + now rewrite Nat.sub_diag, Nat.add_0_r.
Qed.

Lemma star_lazy_find (sub : str) (h : nat -> str -> R) (p : nat) (s : str) :
  (forall q t, k q t = if startswith sub t then Some (h q t) else None) ->
  star_lazy (fun _ => true) k p s
  = match find sub s with
    | Some i => Some (h (p + i) (skipn i s))
    | None => None
    end.
Proof.
  intros Hk. revert p; induction s as [|c s IH]; intros p.
  - simpl. rewrite Hk. destruct (startswith sub []); simpl; trivial.
    now rewrite Nat.add_0_r.
  - cbn [star_lazy]. rewrite find_unfold, Hk.
    destruct (startswith sub (c :: s)).
    + simpl. now rewrite Nat.add_0_r.
    + rewrite IH. destruct (find sub s) as [i|]; cbn [option_map skipn]; trivial.
      now rewrite Nat.add_succ_comm.
Qed.

End StarLemmas.

Lemma lstrip_app_space (ws x : str) :
  forallb isspace ws = true -> lstrip (ws ++ x) = lstrip x.
Proof.
  induction ws as [|c ws IH]; simpl; trivial.
  intros H. apply andb_true_iff in H as [-> H]. auto.
Qed.

Lemma length_lstrip (s : str) : length (lstrip s) <= length s.
Proof.
  induction s as [|x s IH]; simpl; trivial.
  destruct (isspace x); simpl; lia.
Qed.

(** Inside a text that ends in a character that is not white space,
    [lstrip] stops. *)
Lemma lstrip_inside (s0 : str) (c : char) (y : str) :
  isspace c = false ->
  exists t1 c' t2,
    s0 ++ [c] = t1 ++ c' :: t2 /\ lstrip ((s0 ++ [c]) ++ y) = c' :: t2 ++ y.
Proof.
  intros Hc. induction s0 as [|x s0 IH].
  - exists [], c, []. simpl. now rewrite Hc.
  - destruct (isspace x) eqn:E.
    + destruct IH as (t1 & c' & t2 & E1 & E2).
      exists (x :: t1), c', t2. simpl. rewrite E. split; [now rewrite E1|exact E2].
    + exists [], x, (s0 ++ [c]). simpl. now rewrite E.
Qed.

Lemma rstrip_fixed_last (s : str) :
  rstrip s = s -> s <> [] -> exists s0 c, s = s0 ++ [c] /\ isspace c = false.
Proof.
  unfold rstrip. intros H Hne.
  assert (lstrip (rev s) = rev s) as L.
  { rewrite <- (rev_involutive (lstrip (rev s))), H. reflexivity. }
  destruct (rev s) as [|c t] eqn:E.
  - apply (f_equal (@rev char)) in E. rewrite rev_involutive in E.
    simpl in E. contradiction.
  - exists (rev t), c. split.
    + rewrite <- (rev_involutive s), E. reflexivity.
    + destruct (isspace c) eqn:Ec; trivial.
      simpl in L. rewrite Ec in L.
      pose proof (length_lstrip t) as Len. rewrite L in Len. simpl in Len. lia.
Qed.

(** ** The frontmatter pattern *)

Lemma frontmatter_run (content : str) :
  run re_DOTALL FRONTMATTER_RE [] 0 content
  = if startswith FM_OPEN content
    then match find FM_CLOSE (skipn 4 content) with
         | Some i =>
             let e := 4 + i + 5 + length (skipn 5 (skipn i (skipn 4 content))) in
             Some (e, [(2, true, e); (2, false, 4 + i + 5); (1, true, 4 + i);
                       (1, false, 4)])
         | None => None
         end
    else None.
Proof.
  change FRONTMATTER_RE
    with (Bol :: (map Chr FM_OPEN
                  ++ Open 1 :: StarLazy Dot :: Close 1
                  :: (map Chr FM_CLOSE ++ [Open 2; Star Dot; Close 2; Eol]))).
  cbn [run Nat.eqb]. rewrite run_lits.
  destruct (startswith FM_OPEN content); trivial.
  change (length FM_OPEN) with 4. cbn [run Nat.add].
  rewrite (@star_lazy_find _ _ FM_CLOSE
             (fun q t =>
                let e := q + 5 + length (skipn 5 t) in
                (e, [(2, true, e); (2, false, q + 5); (1, true, q); (1, false, 4)]))).
  - destruct (find FM_CLOSE (skipn 4 content)); reflexivity.
  - intros q t. cbn [run]. rewrite run_lits.
    destruct (startswith FM_CLOSE t); trivial.
    change (length FM_CLOSE) with 5. cbn [run].
    apply star_greedy_to_end; reflexivity.
Qed.

Lemma frontmatter_match_None (content : str) :
  re_match re_DOTALL FRONTMATTER_RE content = None
  <-> startswith FM_OPEN content = false
      \/ find FM_CLOSE (skipn 4 content) = None.
Proof.
  unfold re_match. rewrite frontmatter_run.
  destruct (startswith FM_OPEN content).
  - destruct (find FM_CLOSE (skipn 4 content)); simpl.
    + split; [discriminate|intros [H|H]; discriminate].
    + tauto.
  - tauto.
Qed.

Lemma parse_page_Raise (content : str) (e : exn) :
  parse_page content = Raise e ->
  e = ValueError (lit "page missing --- frontmatter ---")
  /\ re_match re_DOTALL FRONTMATTER_RE content = None.
Proof.
  unfold parse_page.
  destruct (re_match re_DOTALL FRONTMATTER_RE content) as [m|].
  - destruct (match re_match re_DOTALL STYLE_RE (group m 2) with
              | Some sm => _ | None => _ end) as [css rest].
    destruct (match re_search re_DOTALL SCRIPT_RE rest with
              | Some jm => _ | None => _ end) as [js rest'].
    discriminate.
  - intros [= <-]. auto.
Qed.

Lemma parse_page_Ok (content : str) (p : page) :
  parse_page content = Ok p ->
  re_match re_DOTALL FRONTMATTER_RE content <> None.
Proof.
  unfold parse_page.
  destruct (re_match re_DOTALL FRONTMATTER_RE content); discriminate.
Qed.

Lemma parse_page_total (content : str) :
  re_match re_DOTALL FRONTMATTER_RE content <> None ->
  exists p, parse_page content = Ok p.
Proof.
  unfold parse_page.
  destruct (re_match re_DOTALL FRONTMATTER_RE content) as [m|]; [|congruence].
  intros _.
  destruct (match re_match re_DOTALL STYLE_RE (group m 2) with
            | Some sm => _ | None => _ end) as [css rest].
  destruct (match re_search re_DOTALL SCRIPT_RE rest with
            | Some jm => _ | None => _ end) as [js rest'].
  eauto.
Qed.

(** ** The script pattern *)

Lemma isspace_not_lt (c : char) (t : str) :
  isspace c = true -> startswith SCRIPT_OPEN (c :: t) = false.
Proof.
  intros H. change SCRIPT_OPEN with (60%N :: skipn 1 SCRIPT_OPEN).
  cbn [startswith]. destruct (char_eqb 60%N c) eqn:E; trivial.
  apply char_eqb_eq in E. subst c. discriminate H.
Qed.

Lemma forallb_dot (s : str) : forallb (in_class re_DOTALL Dot) s = true.
Proof. induction s; simpl; trivial. Qed.

Lemma space_close_eol_run (M : list mark) (q : nat) (t : str) :
  run re_DOTALL [Star Space; Close 1; Eol] M q t
  = if forallb isspace t
    then Some (q + length t, (1, true, q + length t) :: M)
    else None.
Proof.
  pose (k := run re_DOTALL [Close 1; Eol] M).
  assert (forall q t, run re_DOTALL [Star Space; Close 1; Eol] M q t
                      = star_greedy isspace k q t) as Hrun by reflexivity.
  revert q; induction t as [|c t IH]; intros q.
  - simpl. now rewrite Nat.add_0_r.
  - rewrite Hrun. cbn [star_greedy forallb]. rewrite <- Hrun, IH.
    destruct (isspace c) eqn:E; cbn [andb].
    + destruct (forallb isspace t) eqn:F.
      * cbn [length]. now rewrite Nat.add_succ_comm.
      * destruct t; [discriminate|reflexivity].
    + unfold k. cbn [run]. destruct t; trivial.
      destruct (char_eqb c NL) eqn:N; trivial.
      apply char_eqb_eq in N. subst c. discriminate E.
Qed.

Lemma script_tail_value (M : list mark) (q : nat) (t : str) (r : nat * list mark) :
  run re_DOTALL (map Chr SCRIPT_CLOSE ++ [Star Space; Close 1; Eol]) M q t = Some r ->
  r = (q + length t, (1, true, q + length t) :: M).
Proof.
  rewrite run_lits. destruct (startswith SCRIPT_CLOSE t) eqn:E; [|discriminate].
  rewrite space_close_eol_run.
  destruct (forallb isspace _); [|discriminate].
  apply startswith_split in E. apply (f_equal (@length char)) in E.
  rewrite length_app in E.
  intros [= <-]. rewrite E, Nat.add_assoc. reflexivity.
Qed.

Lemma script_tail_ok (M : list mark) (q : nat) (tail : str) :
  forallb isspace tail = true ->
  run re_DOTALL (map Chr SCRIPT_CLOSE ++ [Star Space; Close 1; Eol]) M q
      (SCRIPT_CLOSE ++ tail) <> None.
Proof.
  intros H. rewrite run_lits, startswith_app, skipn_length_app.
  rewrite space_close_eol_run, H. discriminate.
Qed.

Lemma script_body_run (M : list mark) (q : nat) (mid tail : str) :
  forallb isspace tail = true ->
  let s := mid ++ SCRIPT_CLOSE ++ tail in
  run re_DOTALL (Star Dot :: map Chr SCRIPT_CLOSE ++ [Star Space; Close 1; Eol]) M q s
  = Some (q + length s, (1, true, q + length s) :: M).
Proof.
  intros H s. cbn [run].
  destruct (star_greedy _ _ q s) as [r|] eqn:E.
  - apply star_greedy_inv in E as (s1 & s2 & Es & E).
    apply script_tail_value in E. rewrite E, Es, length_app, Nat.add_assoc.
    reflexivity.
  - exfalso. revert E. apply star_greedy_some; [apply forallb_dot|].
    now apply script_tail_ok.
Qed.

Lemma script_re_unfold :
  SCRIPT_RE
  = Open 1 :: Star Space
    :: (map Chr SCRIPT_OPEN
        ++ Star Dot :: map Chr SCRIPT_CLOSE ++ [Star Space; Close 1; Eol]).
Proof. reflexivity. Qed.

Lemma script_run_ok (p : nat) (ws mid tail : str) :
  forallb isspace ws = true -> forallb isspace tail = true ->
  let s := ws ++ SCRIPT_OPEN ++ mid ++ SCRIPT_CLOSE ++ tail in
  run re_DOTALL SCRIPT_RE [] p s
  = Some (p + length s, [(1, true, p + length s); (1, false, p)]).
Proof.
  intros Hws Htail s. rewrite script_re_unfold. cbn [run in_class].
  rewrite star_greedy_lstrip.
  - unfold s at 2 3. rewrite lstrip_app_space; trivial.
    change (lstrip (SCRIPT_OPEN ++ mid ++ SCRIPT_CLOSE ++ tail))
      with (SCRIPT_OPEN ++ mid ++ SCRIPT_CLOSE ++ tail).
    rewrite run_lits, startswith_app, skipn_length_app.
    rewrite script_body_run; trivial.
    unfold s. rewrite !length_app.
    replace (p + (length ws + (length SCRIPT_OPEN + (length mid + (length SCRIPT_CLOSE + length tail)))
                  - (length SCRIPT_OPEN + (length mid + (length SCRIPT_CLOSE + length tail))))
             + length SCRIPT_OPEN + (length mid + (length SCRIPT_CLOSE + length tail)))
      with (p + (length ws + (length SCRIPT_OPEN + (length mid + (length SCRIPT_CLOSE + length tail)))))
      by lia.
    reflexivity.
  - intros q c t Hc. rewrite run_lits, isspace_not_lt; trivial.
Qed.

Lemma script_run_fail (p : nat) (s0 : str) (c : char) (y : str) :
  isspace c = false -> no_start SCRIPT_OPEN (s0 ++ [c]) y ->
  run re_DOTALL SCRIPT_RE [] p ((s0 ++ [c]) ++ y) = None.
Proof.
  intros Hc NS. rewrite script_re_unfold. cbn [run in_class].
  rewrite star_greedy_lstrip.
  - destruct (@lstrip_inside s0 c y Hc) as (t1 & c' & t2 & E1 & E2).
    rewrite E2, run_lits. now rewrite (NS t1 c' t2 E1).
  - intros q x t Hx. rewrite run_lits, isspace_not_lt; trivial.
Qed.

Lemma search_skip (f : flags) (re : regex) (whole pre y : str) (p : nat) :
  (forall t1 x t2, pre = t1 ++ x :: t2 ->
                   run f re [] (p + length t1) (x :: t2 ++ y) = None) ->
  search_from f re whole p (pre ++ y) = search_from f re whole (p + length pre) y.
Proof.
  revert p; induction pre as [|x pre IH]; intros p H.
  - simpl. now rewrite Nat.add_0_r.
  - cbn [app search_from].
    pose proof (H [] x pre eq_refl) as H0. simpl in H0.
    rewrite Nat.add_0_r in H0. rewrite H0.
    rewrite IH.
    + cbn [length]. now rewrite Nat.add_succ_comm.
    + intros t1 c t2 ->. specialize (H (x :: t1) c t2 eq_refl).
      cbn [length] in H. now rewrite Nat.add_succ_comm.
Qed.

Lemma search_from_hit (f : flags) (re : regex) (whole : str) (p : nat) (s : str)
      (e : nat) (marks : list mark) :
  run f re [] p s = Some (e, marks) ->
  search_from f re whole p s
  = Some {| m_string := whole; m_start := p; m_end := e; m_marks := marks |}.
Proof. intros H. destruct s; simpl; now rewrite H. Qed.

Lemma suffix_last (t1 : str) (x : char) (t2 s0 : str) (c : char) :
  t1 ++ x :: t2 = s0 ++ [c] -> exists s0', x :: t2 = s0' ++ [c].
Proof.
  revert s0; induction t1 as [|a t1 IH]; intros s0 E.
  - now exists s0.
  - destruct s0 as [|b s0]; simpl in E; injection E as _ E.
    + destruct t1; discriminate.
    + eauto.
Qed.

Lemma no_start_suffix (old t1 t2 r : str) :
  no_start old (t1 ++ t2) r -> no_start old t2 r.
Proof.
  intros H u1 c u2 ->. apply (H (t1 ++ u1) c u2). now rewrite <- app_assoc.
Qed.

Lemma script_search (pre ws mid tail : str) :
  let js := ws ++ SCRIPT_OPEN ++ mid ++ SCRIPT_CLOSE ++ tail in
  rstrip pre = pre -> no_start SCRIPT_OPEN pre js ->
  forallb isspace ws = true -> forallb isspace tail = true ->
  extract_script (pre ++ js) = (js, pre).
Proof.
  intros js Hpre NS Hws Htail.
  unfold extract_script, re_search.
  rewrite search_skip.
  - erewrite search_from_hit by (apply script_run_ok; trivial).
    fold js. unfold group, start, slice.
    cbn [m_marks m_string m_start mark_pos Nat.eqb Bool.eqb andb Nat.add].
    replace (length pre + length js - length pre) with (length js) by lia.
    rewrite skipn_length_app, firstn_all.
    rewrite firstn_app, firstn_all, Nat.sub_diag, app_nil_r. reflexivity.
  - intros t1 x t2 E.
    destruct (@rstrip_fixed_last pre Hpre) as (s0 & c & Es & Hc).
    { rewrite E. destruct t1; discriminate. }
    rewrite Es in E. symmetry in E.
    destruct (@suffix_last t1 x t2 s0 c E) as (s0' & E').
    change (x :: t2 ++ js) with ((x :: t2) ++ js). rewrite E'.
    apply script_run_fail; trivial.
    rewrite <- E'. apply (@no_start_suffix _ t1). now rewrite E, <- Es.
Qed.

Lemma parse_page_steps (content : str) :
  parse_page content
  = match re_match re_DOTALL FRONTMATTER_RE content with
    | None => Raise (ValueError (lit "page missing --- frontmatter ---"))
    | Some m =>
        let '(page_css, rest) := extract_style (group m 2) in
        let '(page_js, rest') := extract_script rest in
        Ok (parse_meta (group m 1), page_css, strip rest', page_js)
    end.
Proof. reflexivity. Qed.

(* ===================================================================== *)
(** * Substitution in a layout made of pieces *)
(* ===================================================================== *)

Lemma token_unfold (n : str) :
  token n = LBRACE :: LBRACE :: n ++ [RBRACE; RBRACE].
Proof. reflexivity. Qed.

Lemma token_not_nil (n : str) : token n <> [].
Proof. rewrite token_unfold. discriminate. Qed.

Lemma safe_suffix (t1 t2 : str) : safe (t1 ++ t2) = true -> safe t2 = true.
Proof.
  induction t1 as [|c t1 IH]; trivial.
  intros H. change ((c :: t1) ++ t2) with (c :: (t1 ++ t2)) in H.
  cbn [safe] in H. apply andb_true_iff in H as [_ H]. now apply IH.
Qed.

Lemma safe_no_start (t r X : str) :
  safe t = true -> no_start (LBRACE :: LBRACE :: X) t r.
Proof.
  intros H t1 c t2 ->. apply safe_suffix in H.
  cbn [startswith]. destruct (char_eqb LBRACE c) eqn:E; trivial.
  apply char_eqb_eq in E. subst c.
  cbn [safe] in H. rewrite char_eqb_refl in H. simpl negb in H.
  destruct t2 as [|c' t2]; [discriminate|].
  simpl in H. apply andb_true_iff in H as [H _].
  apply negb_true_iff in H.
  cbn [app startswith]. unfold char_eqb in *. rewrite N.eqb_sym, H. reflexivity.
Qed.

Lemma token_body_inj (n m r : str) :
  brace_free n = true -> brace_free m = true ->
  startswith (n ++ [RBRACE; RBRACE]) (m ++ [RBRACE; RBRACE] ++ r) = true ->
  n = m.
Proof.
  revert m; induction n as [|x n IH]; intros [|y m] Bn Bm H; trivial.
  - simpl in H. simpl in Bm.
    apply andb_true_iff in H as [H _]. apply char_eqb_eq in H. subst y.
    rewrite char_eqb_refl in Bm. rewrite andb_false_r in Bm. discriminate.
  - simpl in H. simpl in Bn.
    apply andb_true_iff in H as [H _]. apply char_eqb_eq in H. subst x.
    rewrite char_eqb_refl in Bn. rewrite andb_false_r in Bn. discriminate.
  - simpl in H, Bn, Bm.
    apply andb_true_iff in H as [Hx H]. apply char_eqb_eq in Hx. subst y.
    apply andb_true_iff in Bn as [_ Bn]. apply andb_true_iff in Bm as [_ Bm].
    f_equal. now apply IH.
Qed.

Lemma brace_free_no_lbrace (w t1 t2 : str) (c : char) :
  brace_free w = true -> w ++ [RBRACE; RBRACE] = t1 ++ c :: t2 ->
  char_eqb LBRACE c = false.
Proof.
  intros B E.
  assert (In c (w ++ [RBRACE; RBRACE])) as I
    by (rewrite E; apply in_or_app; right; now left).
  apply in_app_or in I as [I|I].
  - unfold brace_free in B. rewrite forallb_forall in B. apply B in I.
    apply andb_true_iff in I as [I _]. apply negb_true_iff in I.
    unfold char_eqb in *. now rewrite N.eqb_sym.
  - simpl in I. destruct I as [<-|[<-|[]]]; reflexivity.
Qed.

Lemma token_no_start_other (n m r : str) :
  brace_free n = true -> brace_free m = true -> n <> m ->
  no_start (token n) (token m) r.
Proof.
  intros Bn Bm Hne t1 c t2 E. rewrite !token_unfold in *.
  destruct t1 as [|a [|b t1]]; simpl in E.
  - (* at the first brace: the names would be equal *)
    injection E as <- <-.
    destruct (startswith _ _) eqn:S0; trivial.
    cbn [startswith app] in S0. rewrite !char_eqb_refl in S0. cbn [andb] in S0.
    rewrite <- app_assoc in S0.
    apply token_body_inj in S0; trivial. contradiction.
  - (* at the second brace: what follows is not a left brace *)
    injection E as _ <- <-.
    cbn [startswith]. rewrite char_eqb_refl. cbn [andb].
    destruct (m ++ [RBRACE; RBRACE]) as [|y w] eqn:Ew.
    + destruct m; discriminate.
    + cbn [app startswith].
      rewrite (@brace_free_no_lbrace m [] w y Bm Ew). reflexivity.
  - (* inside the name or the closing braces *)
    injection E as _ _ E.
    cbn [startswith]. now rewrite (@brace_free_no_lbrace m t1 t2 c Bm E).
Qed.

Lemma piece_no_start (n r : str) (pc : piece) :
  brace_free n = true -> wf_piece pc = true -> pc <> Token n ->
  no_start (token n) (piece_text pc) r.
Proof.
  intros Bn W Hne. destruct pc as [t|m]; simpl in *.
  - rewrite token_unfold. now apply safe_no_start.
  - apply token_no_start_other; trivial. congruence.
Qed.

Lemma replace_pieces (n v : str) (l : list piece) :
  brace_free n = true -> forallb wf_piece l = true ->
  replace (token n) v (flatten l) = flatten (map (expand [(n, v)]) l).
Proof.
  intros Bn. induction l as [|pc l IH]; intros W.
  - apply replace_nil, token_not_nil.
  - simpl in W. apply andb_true_iff in W as [Wp W].
    change (flatten (pc :: l)) with (piece_text pc ++ flatten l).
    change (flatten (map (expand [(n, v)]) (pc :: l)))
      with (piece_text (expand [(n, v)] pc) ++ flatten (map (expand [(n, v)]) l)).
    rewrite <- (IH W).
    destruct pc as [t|m].
    + apply replace_app_l; [apply token_not_nil|].
      now apply (@piece_no_start n _ (Text t)).
    + simpl expand. destruct (str_eqb n m) eqn:E.
      * apply str_eqb_eq in E. subst m. simpl piece_text.
        rewrite replace_hit; [|apply token_not_nil|apply startswith_app].
        now rewrite skipn_length_app.
      * apply str_eqb_neq in E. simpl piece_text.
        apply replace_app_l; [apply token_not_nil|].
        apply (@piece_no_start n _ (Token m)); trivial. congruence.
Qed.

Lemma expand_wf (subs : list (str * str)) (pc : piece) :
  forallb (fun kv => safe (snd kv)) subs = true ->
  wf_piece pc = true -> wf_piece (expand subs pc) = true.
Proof.
  intros Hs W. destruct pc as [t|m]; simpl; trivial.
  destruct (dict_lookup subs m) as [v|] eqn:L; trivial. simpl.
  induction subs as [|[k x] subs IH]; [discriminate|].
  simpl in Hs, L. apply andb_true_iff in Hs as [Hx Hs].
  destruct (str_eqb k m); [congruence|auto].
Qed.

Lemma expand_cons (n v : str) (subs : list (str * str)) (pc : piece) :
  expand subs (expand [(n, v)] pc) = expand ((n, v) :: subs) pc.
Proof.
  destruct pc as [t|m]; simpl; trivial.
  destruct (str_eqb n m); reflexivity.
Qed.

Lemma apply_substitutions_pieces (subs : list (str * str)) (l : list piece) :
  forallb (fun kv => brace_free (fst kv)) subs = true ->
  forallb (fun kv => safe (snd kv)) subs = true ->
  forallb wf_piece l = true ->
  apply_substitutions subs (flatten l) = flatten (map (expand subs) l).
Proof.
  revert l; induction subs as [|[n v] subs IH]; intros l Hn Hv W.
  - simpl. f_equal. rewrite <- (map_id l) at 1. apply map_ext.
    now intros [t|m].
  - simpl in Hn, Hv.
    apply andb_true_iff in Hn as [Bn Hn]. apply andb_true_iff in Hv as [Sv Hv].
    unfold apply_substitutions. cbn [fold_left fst snd].
    rewrite replace_pieces; trivial.
    fold (apply_substitutions subs (flatten (map (expand [(n, v)]) l))).
    rewrite IH; trivial.
    + rewrite map_map. f_equal. apply map_ext. intros pc. apply expand_cons.
    + rewrite forallb_forall in *. intros pc I.
      apply in_map_iff in I as (pc0 & <- & I).
      apply expand_wf; [simpl; now rewrite Sv|auto].
Qed.

Lemma fill_layout_apply (layout : str) (p : page) :
  fill_layout layout p = apply_substitutions (substitutions p) layout.
Proof. destruct p as [[[meta css] body] js]. reflexivity. Qed.

Lemma find_token_flatten (n : str) (l : list piece) :
  brace_free n = true -> forallb wf_piece l = true -> ~ In (Token n) l ->
  find (token n) (flatten l) = None.
Proof.
  intros Bn. induction l as [|pc l IH]; intros W NI.
  - change (flatten []) with (@nil char).
    rewrite find_unfold, startswith_nil_r; [reflexivity|apply token_not_nil].
  - simpl in W. apply andb_true_iff in W as [Wp W].
    change (flatten (pc :: l)) with (piece_text pc ++ flatten l).
    rewrite find_app_l.
    + rewrite IH; trivial. intros I. apply NI. now right.
    + apply piece_no_start; trivial. intros ->. apply NI. now left.
Qed.

Lemma dict_lookup_in (d : dict) (k : str) :
  In k (map fst d) -> dict_lookup d k <> None.
Proof.
  induction d as [|[k' v] d IH]; simpl; [tauto|].
  intros [->|I].
  - rewrite str_eqb_refl. discriminate.
  - destruct (str_eqb k' k); [discriminate|auto].
Qed.

Lemma dict_lookup_not_in (d : dict) (k : str) :
  ~ In k (map fst d) -> dict_lookup d k = None.
Proof.
  induction d as [|[k' v] d IH]; simpl; trivial.
  intros NI. destruct (str_eqb k' k) eqn:E.
  - apply str_eqb_eq in E. tauto.
  - apply IH. tauto.
Qed.

Lemma expand_no_token (subs : list (str * str)) (n : str) (l : list piece) :
  In n (map fst subs) -> ~ In (Token n) (map (expand subs) l).
Proof.
  intros I H. apply in_map_iff in H as ([t|m] & E & _); simpl in E.
  - discriminate.
  - destruct (dict_lookup subs m) eqn:L; [discriminate|].
    injection E as ->. now apply dict_lookup_in in I.
Qed.

Lemma substitutions_names (p : page) :
  map fst (substitutions p) = placeholder_names.
Proof. destruct p as [[[meta css] body] js]. reflexivity. Qed.

Lemma placeholder_names_brace_free :
  forallb brace_free placeholder_names = true.
Proof. reflexivity. Qed.

Lemma substitutions_brace_free (p : page) :
  forallb (fun kv => brace_free (fst kv)) (substitutions p) = true.
Proof.
  pose proof placeholder_names_brace_free as H.
  rewrite <- (substitutions_names p) in H.
  rewrite forallb_forall in *. intros kv I. apply H. now apply in_map.
Qed.

(** The text written for a page, when the layout is made of well-formed
    pieces and the values are safe: every piece expanded. *)
Lemma fill_layout_pieces (l : list piece) (p : page) :
  forallb wf_piece l = true -> safe_values p = true ->
  fill_layout (flatten l) p = flatten (map (expand (substitutions p)) l).
Proof.
  intros W Sv. rewrite fill_layout_apply.
  apply apply_substitutions_pieces; trivial.
  apply substitutions_brace_free.
Qed.

(* ===================================================================== *)
(** * C1: the maximum width *)
(* ===================================================================== *)

(** C1, as stated, fails: the key that [build] reads is [max_width], with
    an underscore.  A page that sets [max-width: 1000px] has that key and
    value in its metadata, and a layout that is the placeholder alone is
    rendered as the default, not as the value. *)
Lemma max_width_hyphen_key_ignored :
  ~ (forall (source : str) (meta : dict) (css body js v : str),
        parse_page source = Ok (meta, css, body, js) ->
        dict_lookup meta (lit "max-width") = Some v ->
        fill_layout (token (lit "MAX_WIDTH")) (meta, css, body, js) = v).
Proof.
  intros H.
  specialize (H HYPHEN_PAGE
                [(lit "title", lit "Wide"); (lit "max-width", lit "1000px")]
                [] (lit "<p>wide</p>") [] (lit "1000px") eq_refl eq_refl).
  vm_compute in H. discriminate H.
Qed.

(** C1, amended: for a page whose metadata has the key [max_width] with
    value [v], every [{{MAX_WIDTH}}] token of the layout is replaced by [v],
    and by ["820px"] when the page has no such key.  The layout is a
    sequence of well-formed pieces and the values of the page are safe. *)
Theorem max_width_substituted
        (l : list piece) (source : str) (meta : dict) (css body js : str) :
  parse_page source = Ok (meta, css, body, js) ->
  forallb wf_piece l = true ->
  safe_values (meta, css, body, js) = true ->
  fill_layout (flatten l) (meta, css, body, js)
  = flatten (map (expand (substitutions (meta, css, body, js))) l)
  /\ expand (substitutions (meta, css, body, js)) (Token (lit "MAX_WIDTH"))
     = Text (match dict_lookup meta (lit "max_width") with
             | Some v => v
             | None => lit "820px"
             end).
Proof.
  intros _ W Sv. split.
  - now apply fill_layout_pieces.
  - reflexivity.
Qed.

Lemma max_width_substituted_witness :
  fill_layout (flatten [Text (lit "main{max-width:"); Token (lit "MAX_WIDTH"); Text (lit "}")])
              ([(lit "title", lit "Wide"); (lit "max_width", lit "1000px")],
               [], lit "<p>wide</p>", [])
  = lit "main{max-width:1000px}".
Proof.
  destruct (@max_width_substituted
              [Text (lit "main{max-width:"); Token (lit "MAX_WIDTH"); Text (lit "}")]
              WIDE_PAGE
              [(lit "title", lit "Wide"); (lit "max_width", lit "1000px")]
              [] (lit "<p>wide</p>") [] eq_refl eq_refl eq_refl) as [E _].
  exact (eq_trans E eq_refl).
Defined.

(* ===================================================================== *)
(** * C2: the example of the specification *)
(* ===================================================================== *)

(** C2: the example page is parsed into its title and active entry, the
    rule of its style block without the tags, its body, and its script
    block with the tags; its substitutions give the title, the rule, the
    body and the script block, the active mark for [NAV_CONFIG] and the
    empty string for every other navigation placeholder; and a layout with
    every placeholder is rendered accordingly. *)
Theorem example_page_rendered :
  parse_page EXAMPLE_PAGE = Ok EXAMPLE_PARSED
  /\ substitutions EXAMPLE_PARSED
     = [ (lit "TITLE", lit "Config");
         (lit "DESCRIPTION", []);
         (lit "MAX_WIDTH", lit "820px");
         (lit "PAGE_CSS", lit ".x{color:red}");
         (lit "BODY", lit "<p>Hello</p>");
         (lit "PAGE_JS", lit "\n<script>console.log(1)</script>\n");
         (lit "NAV_INDEX", []);
         (lit "NAV_CONFIG", ACTIVE_MARK);
         (lit "NAV_CHANNELS", []);
         (lit "NAV_TOOLS", []);
         (lit "NAV_WORKSPACE", []);
         (lit "NAV_DEPLOY", []);
         (lit "NAV_CLI", []) ]
  /\ fill_layout EXAMPLE_LAYOUT EXAMPLE_PARSED = EXAMPLE_OUTPUT
  /\ fill_layout (lit "<title>{{TITLE}}</title><body>{{BODY}}</body>") EXAMPLE_PARSED
     = lit "<title>Config</title><body><p>Hello</p></body>".
Proof. repeat split; vm_compute; reflexivity. Qed.

Lemma replace_pieces_none (n v : str) (l : list piece) :
  brace_free n = true -> forallb wf_piece l = true -> ~ In (Token n) l ->
  replace (token n) v (flatten l) = flatten l.
Proof.
  intros Bn W NI. rewrite replace_pieces by trivial. f_equal.
  rewrite <- (map_id l) at 2. apply map_ext_in.
  intros [t|m] I; simpl; trivial.
  destruct (str_eqb n m) eqn:E; trivial.
  apply str_eqb_eq in E. subst m. contradiction.
Qed.

(* ===================================================================== *)
(** * C3: the navigation placeholders *)
(* ===================================================================== *)

Lemma nav_replacements_items (active : str) :
  items (nav_replacements active)
  = map (fun key =>
           (token (lit "NAV_" ++ upper key),
            if str_eqb key active then ACTIVE_MARK else []))
        nav_keys.
Proof. reflexivity. Qed.

Lemma nav_keys_NoDup : NoDup nav_keys.
Proof.
  unfold nav_keys.
  repeat (constructor; [simpl; intuition discriminate|]). constructor.
Qed.

Lemma count_eq_le_1 (a : str) (l : list str) :
  NoDup l -> length (filter (fun k => str_eqb k a) l) <= 1.
Proof.
  induction 1 as [|k l NI ND IH]; simpl; [lia|].
  destruct (str_eqb k a) eqn:E; trivial.
  apply str_eqb_eq in E. subst a. simpl.
  assert (filter (fun k' => str_eqb k' k) l = []) as ->; [|simpl; lia].
  clear -NI. induction l as [|x l IH]; simpl; trivial.
  destruct (str_eqb x k) eqn:E.
  - apply str_eqb_eq in E. subst x. exfalso. apply NI. now left.
  - apply IH. intros I. apply NI. now right.
Qed.

Lemma active_mark_if (b : bool) :
  str_eqb (if b then ACTIVE_MARK else []) ACTIVE_MARK = b.
Proof. destruct b; reflexivity. Qed.

Lemma count_active_map (ph : str -> str) (active : str) (l : list str) :
  length (filter (fun kv => str_eqb (snd kv) ACTIVE_MARK)
                 (map (fun key =>
                         (ph key, if str_eqb key active then ACTIVE_MARK else []))
                      l))
  = length (filter (fun k => str_eqb k active) l).
Proof.
  induction l as [|k l IH]; simpl; trivial.
  rewrite active_mark_if. destruct (str_eqb k active); simpl; now rewrite IH.
Qed.

Lemma apply_substitutions_none (subs : list (str * str)) (l : list piece) :
  forallb (fun kv => brace_free (fst kv)) subs = true ->
  forallb wf_piece l = true ->
  (forall kv, In kv subs -> ~ In (Token (fst kv)) l) ->
  apply_substitutions subs (flatten l) = flatten l.
Proof.
  intros Hn W. induction subs as [|[n v] subs IH]; intros NI; trivial.
  simpl in Hn. apply andb_true_iff in Hn as [Bn Hn].
  unfold apply_substitutions. cbn [fold_left fst snd].
  rewrite replace_pieces_none; trivial.
  - apply IH; trivial. intros kv I. apply NI. now right.
  - apply (NI (n, v)). now left.
Qed.

Lemma apply_substitutions_app (a b : list (str * str)) (layout : str) :
  apply_substitutions (a ++ b) layout
  = apply_substitutions b (apply_substitutions a layout).
Proof. unfold apply_substitutions. apply fold_left_app. Qed.

Lemma substitutions_split (meta : dict) (css body js : str) :
  substitutions (meta, css, body, js)
  = firstn 6 (substitutions (meta, css, body, js))
    ++ nav_substitutions (dict_get meta (lit "active") []).
Proof. reflexivity. Qed.

Lemma nav_substitutions_ok (active : str) :
  forallb (fun kv => brace_free (fst kv)) (nav_substitutions active) = true
  /\ forallb (fun kv => safe (snd kv)) (nav_substitutions active) = true.
Proof.
  unfold nav_substitutions, nav_keys. cbn [map forallb fst snd].
  split.
  - reflexivity.
  - repeat match goal with
           | |- context [str_eqb ?k active] => destruct (str_eqb k active)
           end; reflexivity.
Qed.

Lemma no_page_token_not_in (l : list piece) (n : str) :
  no_page_token l = true -> In n page_placeholders -> ~ In (Token n) l.
Proof.
  unfold no_page_token. intros H I T. rewrite forallb_forall in H.
  apply H in T. apply negb_true_iff in T.
  assert (existsb (str_eqb n) page_placeholders = true) as E; [|congruence].
  apply existsb_exists. exists n. split; trivial. apply str_eqb_refl.
Qed.

(** The text written for a page when the layout has none of the six
    placeholders of the page: its navigation tokens are replaced, whatever
    the values of the page. *)
Lemma fill_layout_nav (l : list piece) (meta : dict) (css body js : str) :
  forallb wf_piece l = true -> no_page_token l = true ->
  fill_layout (flatten l) (meta, css, body, js)
  = flatten (map (expand (nav_substitutions (dict_get meta (lit "active") []))) l).
Proof.
  intros W NP.
  rewrite fill_layout_apply, substitutions_split, apply_substitutions_app.
  assert (apply_substitutions (firstn 6 (substitutions (meta, css, body, js)))
                              (flatten l) = flatten l) as ->.
  { apply apply_substitutions_none; trivial.
    intros kv I. apply no_page_token_not_in; trivial.
    cbn [firstn substitutions app] in I. unfold page_placeholders.
    repeat (destruct I as [<-|I]; [simpl; tauto|]). contradiction. }
  apply apply_substitutions_pieces; trivial; apply nav_substitutions_ok.
Qed.

Lemma expand_nav (active key : str) :
  In key nav_keys ->
  expand (nav_substitutions active) (Token (lit "NAV_" ++ upper key))
  = Text (if str_eqb key active then ACTIVE_MARK else []).
Proof.
  intros I. unfold nav_keys in I. simpl in I.
  repeat (destruct I as [<-|I]; [reflexivity|]). contradiction.
Qed.

Lemma expand_nav_page (meta : dict) (css body js key : str) :
  In key nav_keys ->
  expand (substitutions (meta, css, body, js)) (Token (lit "NAV_" ++ upper key))
  = Text (if str_eqb key (dict_get meta (lit "active") [])
          then ACTIVE_MARK else []).
Proof.
  intros I. unfold nav_keys in I. simpl in I.
  repeat (destruct I as [<-|I]; [reflexivity|]). contradiction.
Qed.

Lemma nav_token_alone (key : str) :
  In key nav_keys ->
  forallb wf_piece [Token (lit "NAV_" ++ upper key)] = true
  /\ no_page_token [Token (lit "NAV_" ++ upper key)] = true.
Proof.
  intros I. unfold nav_keys in I. simpl in I.
  repeat (destruct I as [<-|I]; [split; reflexivity|]). contradiction.
Qed.

(** C3: for every page, with [active] the value [meta.get('active', '')]
    of its metadata: [build] replaces each navigation placeholder
    [{{NAV_KEY}}] by the active mark if the key is [active] and by the empty
    text if it is not.  This is what the text written shows for a layout
    that is the placeholder alone, for a layout of well-formed pieces with
    none of the six placeholders of the page (whatever the values of the
    page), and for any layout of well-formed pieces when the values of the
    page are safe; it is what the dictionary [nav_replacements] holds.  So
    a placeholder gets the mark if and only if its key is [active], at most
    one key gets it, and none does when [active] is no navigation key. *)
Theorem nav_active_exclusive (meta : dict) (css body js : str) :
  let p := (meta, css, body, js) in
  let active := dict_get meta (lit "active") [] in
  (forall key, In key nav_keys ->
     fill_layout (token (lit "NAV_" ++ upper key)) p
     = if str_eqb key active then ACTIVE_MARK else [])
  /\ (forall key, In key nav_keys ->
        (fill_layout (token (lit "NAV_" ++ upper key)) p = ACTIVE_MARK
         <-> key = active))
  /\ (forall k1 k2, In k1 nav_keys -> In k2 nav_keys ->
        fill_layout (token (lit "NAV_" ++ upper k1)) p = ACTIVE_MARK ->
        fill_layout (token (lit "NAV_" ++ upper k2)) p = ACTIVE_MARK ->
        k1 = k2)
  /\ (~ In active nav_keys ->
      forall key, In key nav_keys ->
                  fill_layout (token (lit "NAV_" ++ upper key)) p = [])
  /\ (forall l, forallb wf_piece l = true -> no_page_token l = true ->
        fill_layout (flatten l) p
        = flatten (map (expand (nav_substitutions active)) l))
  /\ (forall l, forallb wf_piece l = true -> safe_values p = true ->
        fill_layout (flatten l) p = flatten (map (expand (substitutions p)) l))
  /\ (forall key, In key nav_keys ->
        expand (nav_substitutions active) (Token (lit "NAV_" ++ upper key))
        = Text (if str_eqb key active then ACTIVE_MARK else [])
        /\ expand (substitutions p) (Token (lit "NAV_" ++ upper key))
           = Text (if str_eqb key active then ACTIVE_MARK else []))
  /\ (forall key, In key nav_keys ->
        dict_lookup (nav_replacements active) (token (lit "NAV_" ++ upper key))
        = Some (if str_eqb key active then ACTIVE_MARK else []))
  /\ length (filter (fun kv => str_eqb (snd kv) ACTIVE_MARK)
                    (items (nav_replacements active))) <= 1
  /\ (~ In active nav_keys ->
      forall kv, In kv (items (nav_replacements active)) -> snd kv = []).
Proof.
  intros p active.
  assert (forall key, In key nav_keys ->
            fill_layout (token (lit "NAV_" ++ upper key)) p
            = if str_eqb key active then ACTIVE_MARK else []) as F.
  { intros key I. destruct (nav_token_alone I) as [W NP].
    pose proof (@fill_layout_nav [Token (lit "NAV_" ++ upper key)]
                                 meta css body js W NP) as E.
    unfold flatten in E. cbn [flat_map map piece_text] in E.
    rewrite app_nil_r in E. unfold p. rewrite E.
    fold active. rewrite expand_nav by exact I.
    cbn [flat_map piece_text]. apply app_nil_r. }
  assert (forall key, In key nav_keys ->
            (fill_layout (token (lit "NAV_" ++ upper key)) p = ACTIVE_MARK
             <-> key = active)) as Iff.
  { intros key I. rewrite (F key I). split.
    - destruct (str_eqb key active) eqn:E.
      + intros _. now apply str_eqb_eq.
      + discriminate.
    - intros ->. now rewrite str_eqb_refl. }
  assert (forall key, In key nav_keys ->
     dict_lookup (nav_replacements active) (token (lit "NAV_" ++ upper key))
     = Some (if str_eqb key active then ACTIVE_MARK else [])) as L.
  { intros key I. unfold nav_keys in I. simpl in I.
    repeat (destruct I as [<-|I]; [reflexivity|]). contradiction. }
  split; [exact F|]. split; [exact Iff|]. split; [|split; [|split; [|split]]].
  - intros k1 k2 I1 I2 H1 H2.
    apply (Iff k1 I1) in H1. apply (Iff k2 I2) in H2. congruence.
  - intros NI key I. rewrite (F key I).
    destruct (str_eqb key active) eqn:E; trivial.
    apply str_eqb_eq in E. subst. contradiction.
  - intros l W NP. now apply fill_layout_nav.
  - intros l W Sv. now apply fill_layout_pieces.
  - split; [|split; [exact L|split]].
    + intros key I. split; [now apply expand_nav|now apply expand_nav_page].
    + rewrite nav_replacements_items, count_active_map.
      apply count_eq_le_1, nav_keys_NoDup.
    + intros NI kv I. rewrite nav_replacements_items in I.
      apply in_map_iff in I as (key & <- & I). simpl.
      destruct (str_eqb key active) eqn:E; trivial.
      apply str_eqb_eq in E. subst. contradiction.
Qed.

Lemma nav_active_exclusive_witness :
  fill_layout (lit "{{NAV_CONFIG}}") EXAMPLE_PARSED = ACTIVE_MARK
  /\ fill_layout (lit "{{NAV_CLI}}") EXAMPLE_PARSED = []
  /\ fill_layout (lit "<a {{NAV_INDEX}}>index</a><a {{NAV_CONFIG}}>config</a>")
                 EXAMPLE_PARSED
     = lit "<a >index</a><a " ++ ACTIVE_MARK ++ lit ">config</a>"
  /\ (forall key, In key nav_keys ->
                  fill_layout (token (lit "NAV_" ++ upper key))
                              ([(lit "active", lit "home")], [], [], [])
                  = []).
Proof.
  destruct (nav_active_exclusive
              [(lit "title", lit "Config"); (lit "active", lit "config")]
              (lit ".x{color:red}") (lit "<p>Hello</p>") EXAMPLE_JS)
    as (_ & Iff & _ & _ & Nav & _).
  split; [|split; [|split]].
  - apply (proj2 (Iff (lit "config") ltac:(simpl; tauto))). reflexivity.
  - destruct (nav_active_exclusive
                [(lit "title", lit "Config"); (lit "active", lit "config")]
                (lit ".x{color:red}") (lit "<p>Hello</p>") EXAMPLE_JS)
      as (F & _).
    exact (eq_trans (F (lit "cli") ltac:(simpl; tauto)) eq_refl).
  - exact (eq_trans
             (Nav [Text (lit "<a "); Token (lit "NAV_INDEX"); Text (lit ">index</a><a ");
                   Token (lit "NAV_CONFIG"); Text (lit ">config</a>")]
                  eq_refl eq_refl)
             eq_refl).
  - destruct (nav_active_exclusive [(lit "active", lit "home")] [] [] [])
      as (_ & _ & _ & None_ & _).
    apply None_. simpl. intuition discriminate.
Defined.

(* ===================================================================== *)
(** * C4: every placeholder is substituted *)
(* ===================================================================== *)

(** C4, as stated, fails: the replacements are textual and made one after
    the other, so a token that a value brings in after its own replacement
    stays.  The body of the page here quotes [{{TITLE}}]; the layout has
    that token, and so has the text written. *)
Lemma quoted_placeholder_survives :
  ~ (forall (layout source : str) (p : page) (n : str),
        parse_page source = Ok p ->
        In n placeholder_names ->
        find (token n) layout <> None ->
        find (token n) (fill_layout layout p) = None).
Proof.
  intros H.
  specialize (H (lit "<title>{{TITLE}}</title>{{BODY}}") QUOTING_PAGE
                ([(lit "title", lit "T")], [], lit "<p>{{TITLE}}</p>", [])
                (lit "TITLE") eq_refl).
  vm_compute in H.
  assert (Some 19 = None) as E.
  { apply H; [now left|discriminate]. }
  discriminate E.
Qed.

(** C4, amended: when the layout is a sequence of literal text and
    [{{NAME}}] tokens, no text of it and no value of the page has two left
    braces in a row or ends in a left brace, and the names have no brace,
    then the text written is the layout with each token of a replaced name
    turned into its value; no token of a replaced name occurs in it, and
    every token of another name stays where it is. *)
Theorem placeholders_substituted (l : list piece) (source : str) (p : page) :
  parse_page source = Ok p ->
  forallb wf_piece l = true ->
  safe_values p = true ->
  fill_layout (flatten l) p = flatten (map (expand (substitutions p)) l)
  /\ (forall n, In n placeholder_names ->
        find (token n) (fill_layout (flatten l) p) = None)
  /\ (forall n, ~ In n placeholder_names ->
        expand (substitutions p) (Token n) = Token n).
Proof.
  intros _ W Sv. pose proof (fill_layout_pieces l p W Sv) as E.
  split; [exact E|split].
  - intros n I. rewrite E. apply find_token_flatten.
    + pose proof placeholder_names_brace_free as B.
      rewrite forallb_forall in B. auto.
    + rewrite forallb_forall in *. intros pc Ipc.
      apply in_map_iff in Ipc as (pc0 & <- & I0).
      apply expand_wf; [exact Sv|auto].
    + apply expand_no_token. now rewrite substitutions_names.
  - intros n NI. simpl.
    rewrite dict_lookup_not_in; trivial. now rewrite substitutions_names.
Qed.

Lemma placeholders_substituted_witness :
  fill_layout (flatten EXAMPLE_PIECES) EXAMPLE_PARSED
  = lit "<title>Config</title><style>main{max-width:820px}.x{color:red}</style><a "
    ++ ACTIVE_MARK
    ++ lit "><body><p>Hello</p></body>\n<script>console.log(1)</script>\n{{FOOTER}}"
  /\ find (lit "{{BODY}}") (fill_layout (flatten EXAMPLE_PIECES) EXAMPLE_PARSED) = None.
Proof.
  destruct (@placeholders_substituted EXAMPLE_PIECES EXAMPLE_PAGE EXAMPLE_PARSED
              eq_refl eq_refl eq_refl) as (E & A & _).
  split.
  - exact (eq_trans E eq_refl).
  - apply (A (lit "BODY")). simpl. tauto.
Defined.

(* ===================================================================== *)
(** * C9: the shape of the frontmatter *)
(* ===================================================================== *)

Lemma parse_page_no_frontmatter (content : str) :
  startswith FM_OPEN content = false
  \/ find FM_CLOSE (skipn 4 content) = None ->
  parse_page content = Raise MISSING_FRONTMATTER.
Proof.
  intros H. apply frontmatter_match_None in H.
  rewrite parse_page_steps, H. reflexivity.
Qed.

(** C9: a page is accepted exactly when its text is the opening marker
    line, then some text, then a closing marker line with its line feed,
    then the rest.  A text that ends right after the closing marker, with
    no closing marker line before, is refused; so is a text with one
    character, or with white space, before the opening marker. *)
Theorem frontmatter_markers_required :
  (forall content,
      (exists p, parse_page content = Ok p)
      <-> exists fm rest, content = FM_OPEN ++ fm ++ FM_CLOSE ++ rest)
  /\ (forall fm,
         find FM_CLOSE (fm ++ lit "\n---") = None ->
         parse_page (FM_OPEN ++ fm ++ lit "\n---") = Raise MISSING_FRONTMATTER)
  /\ (forall c tail,
         parse_page (c :: FM_OPEN ++ tail) = Raise MISSING_FRONTMATTER)
  /\ (forall ws tail,
         ws <> [] -> forallb isspace ws = true ->
         parse_page (ws ++ FM_OPEN ++ tail) = Raise MISSING_FRONTMATTER).
Proof.
  split; [|split; [|split]].
  - intros content. split.
    + intros [p H]. apply parse_page_Ok in H.
      destruct (startswith FM_OPEN content) eqn:S0.
      * destruct (find FM_CLOSE (skipn 4 content)) as [i|] eqn:F.
        -- exists (firstn i (skipn 4 content)),
                  (skipn (i + length FM_CLOSE) (skipn 4 content)).
           apply startswith_split in S0. apply find_Some_split in F.
           rewrite <- F. exact S0.
        -- exfalso. apply H. apply frontmatter_match_None. now right.
      * exfalso. apply H. apply frontmatter_match_None. now left.
    + intros (fm & rest & ->). apply parse_page_total.
      intros H. apply frontmatter_match_None in H as [H|H].
      * rewrite startswith_app in H. discriminate.
      * change 4 with (length FM_OPEN) in H. rewrite skipn_length_app in H.
        now apply find_app_Some in H.
  - intros fm H. apply parse_page_no_frontmatter. right.
    change 4 with (length FM_OPEN). now rewrite skipn_length_app.
  - intros c tail. apply parse_page_no_frontmatter. left.
    change FM_OPEN with [45; 45; 45; 10]%N. cbn [startswith app].
    change (char_eqb 10%N 45%N) with false.
    now rewrite !andb_false_r.
  - intros [|c ws] tail Hne Hws; [congruence|].
    apply parse_page_no_frontmatter. left.
    simpl in Hws. apply andb_true_iff in Hws as [Hc _].
    change FM_OPEN with (45%N :: skipn 1 FM_OPEN) at 1. cbn [startswith app].
    destruct (char_eqb 45%N c) eqn:E; trivial.
    apply char_eqb_eq in E. subst c. discriminate Hc.
Qed.

Lemma frontmatter_markers_required_witness :
  (exists fm rest, EXAMPLE_PAGE = FM_OPEN ++ fm ++ FM_CLOSE ++ rest)
  /\ parse_page (lit "---\ntitle: Config\n---") = Raise MISSING_FRONTMATTER
  /\ parse_page (lit " \n---\ntitle: Config\n---\n") = Raise MISSING_FRONTMATTER.
Proof.
  destruct frontmatter_markers_required as (A & B & _ & D).
  split; [|split].
  - apply (proj1 (A EXAMPLE_PAGE)). exists EXAMPLE_PARSED. reflexivity.
  - apply (B (lit "title: Config")). reflexivity.
  - apply (D (lit " \n") (lit "title: Config\n---\n")).
    + discriminate.
    + reflexivity.
Defined.

(* ===================================================================== *)
(** * C10: several script blocks *)
(* ===================================================================== *)

(** C10: when the content that remains after the style step is some text
    [pre], white space [ws], and then two script blocks with markup
    between them up to the end (white space may follow), where the first
    [<script>] of the content is the one after [ws] and [pre] has no white
    space at its end, the page JS is everything from [ws] on, the markup
    between the blocks included, and the body is [pre] stripped. *)
Theorem page_js_from_first_script
        (content : str) (m : match_obj) (pre ws a between b tail : str) :
  let js := ws ++ SCRIPT_OPEN ++ a ++ SCRIPT_CLOSE ++ between
            ++ SCRIPT_OPEN ++ b ++ SCRIPT_CLOSE ++ tail in
  re_match re_DOTALL FRONTMATTER_RE content = Some m ->
  snd (extract_style (group m 2)) = pre ++ js ->
  find SCRIPT_OPEN (pre ++ js) = Some (length pre + length ws) ->
  rstrip pre = pre ->
  forallb isspace ws = true ->
  forallb isspace tail = true ->
  parse_page content
  = Ok (parse_meta (group m 1), fst (extract_style (group m 2)), strip pre, js).
Proof.
  intros js Hm Hrest Hfind Hpre Hws Htail.
  rewrite parse_page_steps, Hm.
  destruct (extract_style (group m 2)) as [css rest]. simpl in Hrest. subst rest.
  pose proof (@script_search pre ws
                (a ++ SCRIPT_CLOSE ++ between ++ SCRIPT_OPEN ++ b) tail) as S0.
  cbv zeta in S0. rewrite <- !app_assoc in S0. fold js in S0.
  rewrite S0; trivial.
  eapply find_no_start; [exact Hfind|lia].
Qed.

Lemma page_js_from_first_script_witness :
  parse_page TWO_SCRIPTS_PAGE
  = Ok ([(lit "title", lit "T")], [], lit "<p>body</p>",
        lit "\n<script>a()</script>\n<p>between</p>\n<script>b()</script>\n").
Proof.
  exact (@page_js_from_first_script
           TWO_SCRIPTS_PAGE
           {| m_string := TWO_SCRIPTS_PAGE; m_start := 0; m_end := 86;
              m_marks := [(2, true, 86); (2, false, 17); (1, true, 12);
                          (1, false, 4)] |}
           (lit "<p>body</p>") (lit "\n") (lit "a()") (lit "\n<p>between</p>\n")
           (lit "b()") (lit "\n")
           eq_refl eq_refl eq_refl eq_refl eq_refl eq_refl).
Defined.

(* ===================================================================== *)
(** * The run of build *)
(* ===================================================================== *)

Lemma dict_lookup_set (d : dict) (k v k' : str) :
  dict_lookup (dict_set d k v) k'
  = if str_eqb k k' then Some v else dict_lookup d k'.
Proof.
  induction d as [|[k0 v0] d IH]; simpl.
  - reflexivity.
  - destruct (str_eqb k0 k) eqn:E0; simpl.
    + apply str_eqb_eq in E0. subst k0.
      destruct (str_eqb k k'); reflexivity.
    + rewrite IH. destruct (str_eqb k0 k') eqn:E1; trivial.
      destruct (str_eqb k k') eqn:E2; trivial.
      apply str_eqb_eq in E1, E2. subst. rewrite str_eqb_refl in E0. discriminate.
Qed.

Lemma dict_set_same (d : dict) (k v : str) :
  dict_lookup d k = Some v -> dict_set d k v = d.
Proof.
  induction d as [|[k0 v0] d IH]; simpl; [discriminate|].
  destruct (str_eqb k0 k).
  - now intros [= ->].
  - intros H. now rewrite IH.
Qed.

Lemma write_all_lookup (layout : str) (d : dict) (done : list str) (docs : dict)
      (f : str) :
  (In f done ->
   dict_lookup (write_all layout d done docs) f = Some (page_html layout d f))
  /\ (~ In f done ->
      dict_lookup (write_all layout d done docs) f = dict_lookup docs f).
Proof.
  revert docs; induction done as [|g done IH]; intros docs.
  - simpl. tauto.
  - unfold write_all. cbn [fold_left].
    fold (write_all layout d done (dict_set docs g (page_html layout d g))).
    destruct (IH (dict_set docs g (page_html layout d g))) as [IH1 IH2].
    split.
    + intros I. destruct (in_dec (list_eq_dec N.eq_dec) f done) as [Id|Nd].
      * auto.
      * rewrite IH2; trivial. rewrite dict_lookup_set.
        destruct I as [->|I]; [now rewrite str_eqb_refl|contradiction].
    + intros NI. rewrite IH2 by (intros I; apply NI; now right).
      rewrite dict_lookup_set.
      destruct (str_eqb g f) eqn:E; trivial.
      apply str_eqb_eq in E. subst. exfalso. apply NI. now left.
Qed.

Lemma write_all_fixed (layout : str) (d : dict) (done : list str) (docs : dict) :
  (forall f, In f done -> dict_lookup docs f = Some (page_html layout d f)) ->
  write_all layout d done docs = docs.
Proof.
  induction done as [|g done IH]; intros H; trivial.
  unfold write_all. cbn [fold_left].
  rewrite dict_set_same by (apply H; now left).
  apply IH. intros f I. apply H. now right.
Qed.

Lemma write_all_twice (layout : str) (d : dict) (done : list str) (docs : dict) :
  write_all layout d done (write_all layout d done docs)
  = write_all layout d done docs.
Proof.
  apply write_all_fixed. intros f I. now apply write_all_lookup.
Qed.

Lemma write_all_keeps (layout : str) (d : dict) (done : list str) (docs : dict)
      (f : str) :
  dict_lookup docs f <> None ->
  dict_lookup (write_all layout d done docs) f <> None.
Proof.
  intros H. destruct (in_dec (list_eq_dec N.eq_dec) f done) as [I|NI].
  - rewrite (proj1 (write_all_lookup layout d done docs f) I). discriminate.
  - now rewrite (proj2 (write_all_lookup layout d done docs f) NI).
Qed.

(** The loop of [build], page after page. *)
Lemma for_each_build_page (layout : str) (d : dict) (pages : list str) (w : World) :
  pages_files w = Some d ->
  for_each pages (build_page layout) w
  = (snd (run_pages (docs_dir w) d pages),
     {| docs_dir := docs_dir w;
        docs_files := write_all layout d (fst (run_pages (docs_dir w) d pages))
                                (docs_files w);
        pages_files := Some d;
        stdout := built_lines (fst (run_pages (docs_dir w) d pages)) ++ stdout w |}).
Proof.
  revert w; induction pages as [|f pages IH]; intros [dir docs pgs out] Hp;
    simpl in Hp; subst pgs.
  - reflexivity.
  - cbn [for_each run_pages]. unfold bind at 1.
    unfold build_page at 1. unfold bind at 1. unfold read_file at 1.
    cbn [pages_files docs_dir docs_files stdout path_str].
    destruct (dict_lookup d f) as [source|] eqn:L; [|reflexivity].
    unfold bind at 1. unfold lift at 1.
    destruct (parse_page source) as [p|e] eqn:P; [|reflexivity].
    unfold bind at 1. unfold write_file at 1. unfold print at 1.
    cbn [pages_files docs_dir docs_files stdout].
    rewrite IH by reflexivity.
    cbn [pages_files docs_dir docs_files stdout].
    destruct (run_pages dir d pages) as [done r].
    cbn [fst snd]. f_equal. f_equal.
    + unfold write_all. cbn [fold_left]. unfold page_html. now rewrite L, P.
    + unfold built_lines. cbn [map rev]. now rewrite <- app_assoc.
Qed.

Lemma build_fst (w : World) : fst (build w) = build_result w.
Proof.
  destruct w as [dir docs pgs out].
  unfold build, build_result, bind, read_file, listdir_pages, LAYOUT_PATH.
  cbn [pages_files docs_dir docs_files stdout path_str].
  fold LAYOUT_NAME.
  destruct (dict_lookup docs LAYOUT_NAME) as [layout|]; [|reflexivity].
  destruct pgs as [d|]; [|reflexivity].
  cbn [pages_files docs_dir docs_files stdout]. fold (page_list d).
  destruct (page_list d) as [|f fs] eqn:E; [reflexivity|].
  rewrite for_each_build_page with (d := d) by reflexivity.
  cbn [pages_files docs_dir docs_files stdout].
  destruct (snd (run_pages dir d (f :: fs))) as [[]|e]; reflexivity.
Qed.

Lemma build_snd (w : World) :
  docs_dir (snd (build w)) = docs_dir w
  /\ pages_files (snd (build w)) = pages_files w
  /\ docs_files (snd (build w)) = build_docs w.
Proof.
  destruct w as [dir docs pgs out].
  unfold build, build_docs, bind, read_file, listdir_pages, LAYOUT_PATH.
  cbn [pages_files docs_dir docs_files stdout path_str].
  fold LAYOUT_NAME.
  destruct (dict_lookup docs LAYOUT_NAME) as [layout|]; [|now destruct pgs].
  destruct pgs as [d|]; [|now repeat split].
  cbn [pages_files docs_dir docs_files stdout]. fold (page_list d).
  destruct (page_list d) as [|f fs] eqn:E; [now repeat split|].
  rewrite for_each_build_page with (d := d) by reflexivity.
  cbn [pages_files docs_dir docs_files stdout].
  destruct (snd (run_pages dir d (f :: fs))); now repeat split.
Qed.

(** ** [sorted] *)

Lemma insert_sorted_perm (x : str) (l : list str) :
  Permutation (insert_sorted x l) (x :: l).
Proof.
  induction l as [|y l IH]; simpl; trivial.
  destruct (str_leb x y); trivial.
  rewrite IH. apply perm_swap.
Qed.

Lemma sorted_perm (l : list str) : Permutation (sorted l) l.
Proof.
  induction l as [|x l IH]; simpl; trivial.
  rewrite insert_sorted_perm. now constructor.
Qed.

Lemma str_leb_total (a b : str) : str_leb a b = false -> str_leb b a = true.
Proof.
  revert b; induction a as [|x a IH]; intros [|y b]; simpl; trivial;
    try discriminate.
  intros H. apply orb_false_iff in H as [Hlt H].
  apply N.ltb_ge in Hlt.
  destruct (N.eqb_spec x y) as [->|Hne].
  - unfold char_eqb in *. rewrite N.eqb_refl in *. simpl in H.
    rewrite (IH _ H). apply orb_true_r.
  - assert (y < x)%N as L by lia. apply N.ltb_lt in L. now rewrite L.
Qed.

Lemma insert_sorted_Sorted (x : str) (l : list str) :
  Sorted str_le l -> Sorted str_le (insert_sorted x l).
Proof.
  induction 1 as [|y l Hs IH Hd]; simpl.
  - repeat constructor.
  - destruct (str_leb x y) eqn:E.
    + constructor; [now constructor|]. now constructor.
    + constructor; trivial.
      apply str_leb_total in E.
      destruct l as [|z l]; simpl; [now constructor|].
      destruct (str_leb x z); constructor; trivial.
      now inversion Hd.
Qed.

Lemma sorted_Sorted (l : list str) : Sorted str_le (sorted l).
Proof.
  induction l as [|x l IH]; simpl; [constructor|].
  now apply insert_sorted_Sorted.
Qed.

Lemma page_list_In (d : dict) (f : str) :
  In f (page_list d) -> In f (map fst d) /\ endswith (lit ".html") f = true.
Proof.
  unfold page_list. intros I.
  apply (Permutation_in _ (sorted_perm _)) in I.
  now apply filter_In in I.
Qed.

Lemma page_list_NoDup (d : dict) : NoDup (map fst d) -> NoDup (page_list d).
Proof.
  intros H. unfold page_list.
  apply (Permutation_NoDup (Permutation_sym (sorted_perm _))).
  now apply NoDup_filter.
Qed.

(** ** [run_pages] *)

Lemma run_pages_stop (dir : str) (d : dict) (before after : list str)
      (name source : str) (e : exn) :
  (forall f, In f before ->
             exists s p, dict_lookup d f = Some s /\ parse_page s = Ok p) ->
  dict_lookup d name = Some source ->
  parse_page source = Raise e ->
  run_pages dir d (before ++ name :: after) = (before, Raise e).
Proof.
  intros Hb Hl Hp. induction before as [|f before IH]; simpl.
  - now rewrite Hl, Hp.
  - destruct (Hb f (or_introl eq_refl)) as (s & p & -> & ->).
    rewrite IH; trivial. intros g I. apply Hb. now right.
Qed.

Lemma run_pages_Ok (dir : str) (d : dict) (pages : list str) (u : unit) :
  snd (run_pages dir d pages) = Ok u ->
  fst (run_pages dir d pages) = pages
  /\ forall f, In f pages ->
               exists s p, dict_lookup d f = Some s /\ parse_page s = Ok p.
Proof.
  induction pages as [|f pages IH]; simpl.
  - intros _. split; [reflexivity|contradiction].
  - destruct (dict_lookup d f) as [s|] eqn:L; [|discriminate].
    destruct (parse_page s) as [p|e] eqn:P; [|discriminate].
    destruct (run_pages dir d pages) as [done r]. simpl in *.
    intros H. destruct (IH H) as [-> I]. split; trivial.
    intros g [<-|Ig]; eauto.
Qed.

(* ===================================================================== *)
(** * C5: a page without frontmatter stops the run *)
(* ===================================================================== *)

(** C5: the pages are taken in ascending order.  When the page [name]
    comes after the pages [before] in that order, the pages [before] parse
    and [name] does not, the run ends with the error of the parser and
    exit status 1; the files of the pages [before] have been written, the
    files of [name] and of the pages after it are as they were, and no
    file that existed is gone. *)
Theorem build_stops_at_malformed_page
        (w : World) (layout : str) (d : dict) (before after : list str)
        (name source : str) (e : exn) :
  dict_lookup (docs_files w) LAYOUT_NAME = Some layout ->
  pages_files w = Some d ->
  NoDup (map fst d) ->
  page_list d = before ++ name :: after ->
  (forall f, In f before ->
             exists s p, dict_lookup d f = Some s /\ parse_page s = Ok p) ->
  dict_lookup d name = Some source ->
  parse_page source = Raise e ->
  Sorted str_le (page_list d)
  /\ fst (build w) = Raise MISSING_FRONTMATTER
  /\ exit_status (fst (build w)) = 1
  /\ (forall f, In f before ->
        exists s p, dict_lookup d f = Some s /\ parse_page s = Ok p
                    /\ dict_lookup (docs_files (snd (build w))) f
                       = Some (fill_layout layout p))
  /\ (forall f, In f (name :: after) ->
        dict_lookup (docs_files (snd (build w))) f = dict_lookup (docs_files w) f)
  /\ (forall f, ~ In f before ->
        dict_lookup (docs_files (snd (build w))) f = dict_lookup (docs_files w) f)
  /\ (forall f, dict_lookup (docs_files w) f <> None ->
        dict_lookup (docs_files (snd (build w))) f <> None).
Proof.
  intros Hl Hp ND Hpl Hb Hn He.
  pose proof (@run_pages_stop (docs_dir w) d before after name source e Hb Hn He)
    as Hrun.
  assert (e = MISSING_FRONTMATTER) as -> by (now apply parse_page_Raise in He).
  assert (fst (build w) = Raise MISSING_FRONTMATTER) as Hr.
  { rewrite build_fst. unfold build_result. rewrite Hl, Hp.
    destruct (page_list d) as [|f fs] eqn:E.
    - destruct before; discriminate.
    - now rewrite Hpl, Hrun. }
  assert (docs_files (snd (build w)) = write_all layout d before (docs_files w))
    as Hd.
  { rewrite (proj2 (proj2 (build_snd w))). unfold build_docs.
    now rewrite Hl, Hp, Hpl, Hrun. }
  split; [apply sorted_Sorted|]. split; [exact Hr|]. split; [now rewrite Hr|].
  rewrite Hd.
  assert (forall f, ~ In f before ->
            dict_lookup (write_all layout d before (docs_files w)) f
            = dict_lookup (docs_files w) f) as Hout.
  { intros f NI. now apply write_all_lookup. }
  split; [|split; [|split]]; trivial.
  - intros f I. destruct (Hb f I) as (s & p & Ls & Ps).
    exists s, p. repeat split; trivial.
    rewrite (proj1 (write_all_lookup layout d before (docs_files w) f) I).
    unfold page_html. now rewrite Ls, Ps.
  - intros f I. apply Hout. intros Ib.
    apply page_list_NoDup in ND. rewrite Hpl in ND.
    clear -I Ib ND.
    induction before as [|g before IH]; [contradiction|].
    simpl in ND. inversion ND as [|? ? NI ND']; subst.
    destruct Ib as [->|Ib]; [|auto].
    apply NI. apply in_or_app. now right.
  - intros f. apply write_all_keeps.
Qed.

Lemma build_stops_at_malformed_page_witness :
  fst (build SITE) = Raise MISSING_FRONTMATTER
  /\ exit_status (fst (build SITE)) = 1
  /\ dict_lookup (docs_files (snd (build SITE))) (lit "b.html") = Some (lit "stale")
  /\ dict_lookup (docs_files (snd (build SITE))) (lit "c.html") = None.
Proof.
  assert (NoDup (map fst [(lit "b.html", lit "no frontmatter here");
                          (lit "a.html", EXAMPLE_PAGE);
                          (lit "notes.txt", lit "---\n---\n");
                          (lit "c.html", WIDE_PAGE)])) as ND.
  { repeat (constructor; [simpl; intuition discriminate|]). constructor. }
  assert (forall f, In f [lit "a.html"] ->
            exists s p,
              dict_lookup [(lit "b.html", lit "no frontmatter here");
                           (lit "a.html", EXAMPLE_PAGE);
                           (lit "notes.txt", lit "---\n---\n");
                           (lit "c.html", WIDE_PAGE)] f = Some s
              /\ parse_page s = Ok p) as Hb.
  { intros f [<-|[]]. exists EXAMPLE_PAGE, EXAMPLE_PARSED. split; reflexivity. }
  destruct (@build_stops_at_malformed_page
              SITE (lit "<title>{{TITLE}}</title>{{BODY}}") _
              [lit "a.html"] [lit "c.html"] (lit "b.html")
              (lit "no frontmatter here") MISSING_FRONTMATTER
              eq_refl eq_refl ND eq_refl Hb eq_refl eq_refl)
    as (_ & R & X & _ & Later & _ & _).
  split; [exact R|]. split; [exact X|]. split.
  - exact (eq_trans (Later (lit "b.html") (or_introl eq_refl)) eq_refl).
  - exact (eq_trans (Later (lit "c.html") (or_intror (or_introl eq_refl))) eq_refl).
Defined.

(* ===================================================================== *)
(** * C6: no page *)
(* ===================================================================== *)

(** C6: when no file of the pages directory ends in [.html], the run ends
    with exit status 1 and the files of [DOCS_DIR] are untouched; with a
    layout that can be read, it ends by [sys.exit(1)] after printing
    that no pages were found in the pages directory. *)
Theorem no_pages_found (w : World) (d : dict) :
  pages_files w = Some d ->
  filter (endswith (lit ".html")) (map fst d) = [] ->
  exit_status (fst (build w)) = 1
  /\ docs_files (snd (build w)) = docs_files w
  /\ (forall layout,
         dict_lookup (docs_files w) LAYOUT_NAME = Some layout ->
         build w
         = (Raise (SystemExit 1),
            {| docs_dir := docs_dir w;
               docs_files := docs_files w;
               pages_files := pages_files w;
               stdout := (lit "No pages found in " ++ path_join (docs_dir w) (lit "_pages"))
                           :: stdout w |})).
Proof.
  intros Hp Hf.
  assert (page_list d = []) as Hpl by (unfold page_list; now rewrite Hf).
  split; [|split].
  - rewrite build_fst. unfold build_result. rewrite Hp, Hpl.
    now destruct (dict_lookup (docs_files w) LAYOUT_NAME).
  - rewrite (proj2 (proj2 (build_snd w))). unfold build_docs.
    rewrite Hp, Hpl. now destruct (dict_lookup (docs_files w) LAYOUT_NAME).
  - intros layout Hl. destruct w as [dir docs pgs out].
    simpl in Hp, Hl. subst pgs.
    unfold build, bind, read_file, listdir_pages, LAYOUT_PATH.
    cbn [pages_files docs_dir docs_files stdout]. fold LAYOUT_NAME.
    rewrite Hl. cbn [pages_files docs_dir docs_files stdout]. now rewrite Hf.
Qed.

Lemma no_pages_found_witness :
  build EMPTY_SITE
  = (Raise (SystemExit 1),
     {| docs_dir := lit "/repo/docs";
        docs_files := docs_files EMPTY_SITE;
        pages_files := pages_files EMPTY_SITE;
        stdout := [lit "No pages found in /repo/docs/_pages"] |}).
Proof.
  exact (proj2 (proj2 (@no_pages_found EMPTY_SITE _ eq_refl eq_refl))
               (lit "<title>{{TITLE}}</title>{{BODY}}") eq_refl).
Defined.

(* ===================================================================== *)
(** * C8: a second run changes nothing *)
(* ===================================================================== *)

(** C8: when a run has left the layout as it was, a second run ends as the
    first did and leaves every file of [DOCS_DIR] with the text the first
    run gave it; and after a run that succeeds, each page has its text
    under its own file name, and the files that are not pages are as they
    were. *)
Theorem build_idempotent (w : World) :
  dict_lookup (docs_files (snd (build w))) LAYOUT_NAME
  = dict_lookup (docs_files w) LAYOUT_NAME ->
  fst (build (snd (build w))) = fst (build w)
  /\ docs_files (snd (build (snd (build w)))) = docs_files (snd (build w))
  /\ (forall layout d u,
         dict_lookup (docs_files w) LAYOUT_NAME = Some layout ->
         pages_files w = Some d ->
         fst (build w) = Ok u ->
         (forall f, In f (page_list d) ->
            exists source p,
              dict_lookup d f = Some source /\ parse_page source = Ok p
              /\ dict_lookup (docs_files (snd (build w))) f
                 = Some (fill_layout layout p))
         /\ (forall f, ~ In f (page_list d) ->
               dict_lookup (docs_files (snd (build w))) f
               = dict_lookup (docs_files w) f)).
Proof.
  intros Hlay.
  destruct (build_snd w) as (Hdir & Hpg & Hdocs).
  destruct (build_snd (snd (build w))) as (_ & _ & Hdocs2).
  split; [|split].
  - rewrite !build_fst. unfold build_result. now rewrite Hlay, Hdir, Hpg.
  - rewrite Hdocs2. unfold build_docs at 1. rewrite Hlay, Hdir, Hpg.
    rewrite Hdocs. unfold build_docs.
    destruct (dict_lookup (docs_files w) LAYOUT_NAME) as [layout|]; trivial.
    destruct (pages_files w) as [d|]; trivial.
    apply write_all_twice.
  - intros layout d u Hl Hp Hok.
    rewrite build_fst in Hok. unfold build_result in Hok.
    rewrite Hl, Hp in Hok.
    assert (snd (run_pages (docs_dir w) d (page_list d)) = Ok u) as Hrun.
    { destruct (page_list d); [discriminate|exact Hok]. }
    apply run_pages_Ok in Hrun as [Hdone Hall].
    rewrite Hdocs. unfold build_docs. rewrite Hl, Hp, Hdone.
    split.
    + intros f I. destruct (Hall f I) as (s & p & Ls & Ps).
      exists s, p. repeat split; trivial.
      rewrite (proj1 (write_all_lookup layout d (page_list d) (docs_files w) f) I).
      unfold page_html. now rewrite Ls, Ps.
    + intros f NI. now apply write_all_lookup.
Qed.

Lemma build_idempotent_witness :
  fst (build (snd (build GOOD_SITE))) = Ok tt
  /\ docs_files (snd (build (snd (build GOOD_SITE))))
     = [(lit "_layout.html", lit "<title>{{TITLE}}</title>{{BODY}}");
        (lit "a.html", lit "<title>Config</title><p>Hello</p>");
        (lit "c.html", lit "<title>Wide</title><p>wide</p>")].
Proof.
  destruct (@build_idempotent GOOD_SITE eq_refl) as (R & D & _).
  split.
  - exact (eq_trans R eq_refl).
  - exact (eq_trans D eq_refl).
Defined.

(* ===================================================================== *)
(** * Further properties of the parser *)
(* ===================================================================== *)

(** ** [strip] *)

Lemma lstrip_fixed (s : str) :
  lstrip s = s <-> s = [] \/ exists c t, s = c :: t /\ isspace c = false.
Proof.
  destruct s as [|c t]; simpl.
  - split; auto.
  - destruct (isspace c) eqn:E.
    + split.
      * intros H. pose proof (length_lstrip t) as L. rewrite H in L.
        simpl in L. lia.
      * intros [H|(c' & t' & H & Hc)]; [discriminate|].
        injection H as -> ->. congruence.
    + split; [|reflexivity]. intros _. right. eauto.
Qed.

Lemma lstrip_idem (s : str) : lstrip (lstrip s) = lstrip s.
Proof.
  induction s as [|c s IH]; simpl; trivial.
  destruct (isspace c) eqn:E; trivial. simpl. now rewrite E.
Qed.

Lemma lstrip_snoc (u : str) (c : char) :
  lstrip (u ++ [c])
  = match lstrip u with
    | [] => lstrip [c]
    | r => r ++ [c]
    end.
Proof.
  induction u as [|x u IH]; trivial.
  simpl. destruct (isspace x); trivial.
Qed.

Lemma rstrip_cons (c : char) (t : str) :
  rstrip (c :: t)
  = match rstrip t with
    | [] => if isspace c then [] else [c]
    | r => c :: r
    end.
Proof.
  unfold rstrip. simpl rev. rewrite lstrip_snoc.
  destruct (lstrip (rev t)) as [|x r] eqn:E.
  - simpl. destruct (isspace c); reflexivity.
  - rewrite rev_app_distr. simpl rev at 1. cbn [app].
    destruct (rev (x :: r)) eqn:R; trivial.
    apply (f_equal (@length char)) in R. rewrite length_rev in R. discriminate.
Qed.

Lemma rstrip_idem (s : str) : rstrip (rstrip s) = rstrip s.
Proof. unfold rstrip. now rewrite rev_involutive, lstrip_idem. Qed.

Lemma rstrip_keeps_lstrip (s : str) : lstrip s = s -> lstrip (rstrip s) = rstrip s.
Proof.
  intros H. apply lstrip_fixed in H as [->|(c & t & -> & Hc)]; trivial.
  rewrite rstrip_cons. rewrite Hc.
  destruct (rstrip t); simpl; now rewrite Hc.
Qed.

Lemma strip_lstrip (s : str) : lstrip (strip s) = strip s.
Proof. unfold strip. apply rstrip_keeps_lstrip, lstrip_idem. Qed.

Lemma strip_rstrip (s : str) : rstrip (strip s) = strip s.
Proof. unfold strip. apply rstrip_idem. Qed.

Lemma strip_idem (s : str) : strip (strip s) = strip s.
Proof.
  unfold strip at 1. rewrite strip_lstrip. apply strip_rstrip.
Qed.

Lemma lstrip_all_space (s : str) : forallb isspace s = true -> lstrip s = [].
Proof.
  induction s as [|c s IH]; simpl; trivial.
  intros H. apply andb_true_iff in H as [-> H]. auto.
Qed.

Lemma strip_all_space (s : str) : forallb isspace s = true -> strip s = [].
Proof. intros H. unfold strip. now rewrite lstrip_all_space. Qed.

(** ** The metadata *)

Lemma parse_meta_fold (fm : str) :
  parse_meta fm
  = fold_left (fun meta line => dict_set meta (line_key line) (line_val line))
              (split NL (strip fm)) [].
Proof.
  unfold parse_meta. generalize (@nil (str * str)).
  induction (split NL (strip fm)) as [|line lines IH]; intros d; trivial.
  simpl. rewrite <- IH. unfold line_key, line_val.
  now destruct (partition COLON line) as [[k m] v].
Qed.

Lemma fold_set_other (lines : list str) (d : dict) (k : str) :
  (forall line, In line lines -> line_key line <> k) ->
  dict_lookup
    (fold_left (fun meta line => dict_set meta (line_key line) (line_val line))
               lines d) k
  = dict_lookup d k.
Proof.
  revert d; induction lines as [|line lines IH]; intros d H; trivial.
  simpl. rewrite IH by (intros l I; apply H; now right).
  rewrite dict_lookup_set.
  destruct (str_eqb (line_key line) k) eqn:E; trivial.
  apply str_eqb_eq in E. exfalso. apply (H line); [now left|exact E].
Qed.

(** X1: the value of a key is the one of the last line of the frontmatter
    that gives the key: a later line overrides an earlier one.  The key is
    the text before the first colon of the line and the value the text
    after it, both stripped. *)
Theorem parse_meta_last_line_wins (fm : str) (before : list str) (line : str)
        (after : list str) :
  split NL (strip fm) = before ++ line :: after ->
  (forall l, In l after -> line_key l <> line_key line) ->
  dict_lookup (parse_meta fm) (line_key line) = Some (line_val line).
Proof.
  intros Hs Ha. rewrite parse_meta_fold, Hs, fold_left_app. simpl.
  rewrite fold_set_other; trivial.
  rewrite dict_lookup_set. now rewrite str_eqb_refl.
Qed.

Lemma parse_meta_last_line_wins_witness :
  dict_lookup (parse_meta TWICE_FRONTMATTER) (lit "title")
  = Some (lit "Two: the sequel").
Proof.
  apply (@parse_meta_last_line_wins
           TWICE_FRONTMATTER
           [lit "title: One"; lit "max_width: 900px"]
           (lit "title: Two: the sequel") []).
  - reflexivity.
  - intros l [].
Defined.

(** X2: a key that no line of the frontmatter gives is not in the
    metadata, so [meta.get] returns its default for it. *)
Theorem parse_meta_missing_key (fm k default : str) :
  (forall line, In line (split NL (strip fm)) -> line_key line <> k) ->
  dict_lookup (parse_meta fm) k = None
  /\ dict_get (parse_meta fm) k default = default.
Proof.
  intros H.
  assert (dict_lookup (parse_meta fm) k = None) as L.
  { rewrite parse_meta_fold, fold_set_other; trivial. }
  split; trivial. unfold dict_get. now rewrite L.
Qed.

Lemma parse_meta_missing_key_witness :
  dict_get (parse_meta TWICE_FRONTMATTER) (lit "max-width") (lit "820px")
  = lit "820px".
Proof.
  apply (@parse_meta_missing_key TWICE_FRONTMATTER (lit "max-width") (lit "820px")).
  intros line I. vm_compute in I.
  destruct I as [<-|[<-|[<-|[]]]]; vm_compute; discriminate.
Defined.

Lemma dict_set_Forall (P : str * str -> Prop) (d : dict) (k v : str) :
  Forall P d -> P (k, v) -> Forall P (dict_set d k v).
Proof.
  intros Hd Hp. induction Hd as [|[k0 v0] d H0 Hd IH]; simpl.
  - now constructor.
  - destruct (str_eqb k0 k) eqn:E; constructor; trivial.
    apply str_eqb_eq in E. now subst k0.
Qed.

Lemma dict_set_keys (d : dict) (k v : str) :
  map fst (dict_set d k v)
  = if existsb (fun kv => str_eqb (fst kv) k) d then map fst d
    else map fst d ++ [k].
Proof.
  induction d as [|[k0 v0] d IH]; simpl; trivial.
  destruct (str_eqb k0 k) eqn:E; simpl; trivial.
  rewrite IH. now destruct (existsb _ d).
Qed.

Lemma dict_set_NoDup (d : dict) (k v : str) :
  NoDup (map fst d) -> NoDup (map fst (dict_set d k v)).
Proof.
  intros H. rewrite dict_set_keys.
  destruct (existsb _ d) eqn:E; trivial.
  apply NoDup_app; trivial.
  - repeat constructor. intros [].
  - intros x I [<-|[]].
    assert (existsb (fun kv => str_eqb (fst kv) k) d = true) as T; [|congruence].
    apply in_map_iff in I as (kv & <- & I).
    apply existsb_exists. exists kv. split; trivial. apply str_eqb_refl.
Qed.

(** X3: the metadata that [parse_page] returns has each key once, and no
    key and no value of it begins or ends with white space. *)
Theorem parse_meta_keys_stripped_distinct (fm : str) :
  NoDup (map fst (parse_meta fm))
  /\ forall k v, In (k, v) (parse_meta fm) -> strip k = k /\ strip v = v.
Proof.
  rewrite parse_meta_fold.
  assert (forall lines d,
            NoDup (map fst d) ->
            Forall (fun kv => strip (fst kv) = fst kv /\ strip (snd kv) = snd kv) d ->
            let d' := fold_left
                        (fun meta line => dict_set meta (line_key line) (line_val line))
                        lines d in
            NoDup (map fst d')
            /\ Forall (fun kv => strip (fst kv) = fst kv /\ strip (snd kv) = snd kv) d')
    as G.
  { induction lines as [|line lines IH]; intros d ND F; simpl; [auto|].
    apply IH.
    - now apply dict_set_NoDup.
    - apply dict_set_Forall; trivial.
      unfold line_key, line_val. simpl. split; apply strip_idem. }
  destruct (G (split NL (strip fm)) [] (NoDup_nil _) (Forall_nil _)) as [ND F].
  split; trivial. intros k v I. rewrite Forall_forall in F. apply (F (k, v) I).
Qed.

Lemma parse_meta_keys_stripped_distinct_witness :
  strip (lit "max_width") = lit "max_width" /\ strip (lit "900px") = lit "900px".
Proof.
  apply (proj2 (parse_meta_keys_stripped_distinct TWICE_FRONTMATTER)
               (lit "max_width") (lit "900px")).
  vm_compute. right. left. reflexivity.
Defined.

(** X4: a frontmatter of white space only (an empty one too) gives the
    metadata with the one entry of the empty key and the empty value, in
    which no key that [build] reads is present. *)
Theorem parse_meta_blank (fm : str) :
  forallb isspace fm = true -> parse_meta fm = [([], [])].
Proof.
  intros H. unfold parse_meta. now rewrite strip_all_space.
Qed.

Lemma parse_meta_blank_witness : parse_meta (lit " \n  ") = [([], [])].
Proof. apply parse_meta_blank. reflexivity. Defined.

(** ** The frontmatter *)

Lemma skipn_skipn_add {A} (x y : nat) (l : list A) :
  skipn x (skipn y l) = skipn (y + x) l.
Proof. rewrite skipn_skipn. now rewrite Nat.add_comm. Qed.

Lemma frontmatter_match_groups (content : str) (i : nat) :
  startswith FM_OPEN content = true ->
  find FM_CLOSE (skipn 4 content) = Some i ->
  exists m,
    re_match re_DOTALL FRONTMATTER_RE content = Some m
    /\ group m 1 = firstn i (skipn 4 content)
    /\ group m 2 = skipn (i + 5) (skipn 4 content).
Proof.
  intros S0 F. unfold re_match. rewrite frontmatter_run, S0, F. cbv zeta.
  eexists. split; [reflexivity|].
  unfold group, slice.
  cbn [m_marks m_string mark_pos Nat.eqb Bool.eqb andb].
  split.
  - f_equal. lia.
  - rewrite !skipn_skipn_add.
    replace (4 + (i + 5)) with (4 + i + 5) by lia.
    replace (4 + i + 5 + length (skipn (4 + i + 5) content) - (4 + i + 5))
      with (length (skipn (4 + i + 5) content)) by lia.
    apply firstn_all.
Qed.

(** X5: the frontmatter ends at the first closing marker line.  For a text
    that is the opening line, a text [fm] with no closing marker line that
    begins in it, the closing marker line and the content [rest], the
    metadata are those of [fm] and the page CSS, body and page JS are those
    of [rest], also when [rest] has marker lines of its own. *)
Theorem parse_page_at_first_marker (fm rest : str) :
  find FM_CLOSE (fm ++ FM_CLOSE ++ rest) = Some (length fm) ->
  parse_page (FM_OPEN ++ fm ++ FM_CLOSE ++ rest)
  = Ok (parse_meta fm,
        fst (extract_style rest),
        strip (snd (extract_script (snd (extract_style rest)))),
        fst (extract_script (snd (extract_style rest)))).
Proof.
  intros F.
  destruct (@frontmatter_match_groups (FM_OPEN ++ fm ++ FM_CLOSE ++ rest) (length fm))
    as (m & Hm & G1 & G2).
  - apply startswith_app.
  - exact F.
  - change (skipn 4 (FM_OPEN ++ fm ++ FM_CLOSE ++ rest))
      with (fm ++ FM_CLOSE ++ rest) in G1, G2.
    rewrite firstn_app, firstn_all, Nat.sub_diag in G1. simpl in G1.
    rewrite app_nil_r in G1.
    rewrite <- skipn_skipn_add, skipn_length_app in G2.
    change (skipn 5 (FM_CLOSE ++ rest)) with rest in G2.
    rewrite parse_page_steps, Hm, G1, G2.
    destruct (extract_style rest) as [css r1]. simpl.
    now destruct (extract_script r1) as [js r2].
Qed.

Lemma parse_page_at_first_marker_witness :
  parse_page (lit "---\ntitle: T\n---\n<p>a</p>\n---\n<p>b</p>")
  = Ok ([(lit "title", lit "T")], [], lit "<p>a</p>\n---\n<p>b</p>", []).
Proof.
  exact (eq_trans
           (@parse_page_at_first_marker (lit "title: T") (lit "<p>a</p>\n---\n<p>b</p>")
                                        eq_refl)
           eq_refl).
Defined.

(** X6: an empty frontmatter block is refused.  When the closing marker
    line comes right after the opening line, the line feed of the opening
    line cannot serve the closing marker, so the page is rejected unless
    the content has a marker line of its own. *)
Theorem parse_page_empty_block_refused (rest : str) :
  startswith (lit "---\n") rest = false ->
  find FM_CLOSE rest = None ->
  parse_page (lit "---\n---\n" ++ rest) = Raise MISSING_FRONTMATTER.
Proof.
  intros S0 F. apply parse_page_no_frontmatter. right.
  change (skipn 4 (lit "---\n---\n" ++ rest)) with (lit "---\n" ++ rest).
  rewrite find_app_l, F; trivial.
  intros t1 c t2 E.
  destruct t1 as [|a [|b [|c' [|d t1]]]]; simpl in E; injection E as E; subst;
    try reflexivity.
  - change (lit "\n---\n") with (NL :: lit "---\n") in *.
    change FM_CLOSE with (NL :: lit "---\n").
    cbn [startswith app]. now rewrite S0, andb_false_r.
  - destruct t1; discriminate.
Qed.

Lemma parse_page_empty_block_refused_witness :
  parse_page (lit "---\n---\n<p>hello</p>\n") = Raise MISSING_FRONTMATTER.
Proof.
  apply (@parse_page_empty_block_refused (lit "<p>hello</p>\n")); reflexivity.
Defined.

(** X7: the body that [parse_page] returns neither begins nor ends with
    white space. *)
Theorem parse_page_body_stripped (content : str) (meta : dict) (css body js : str) :
  parse_page content = Ok (meta, css, body, js) ->
  lstrip body = body /\ rstrip body = body.
Proof.
  rewrite parse_page_steps.
  destruct (re_match re_DOTALL FRONTMATTER_RE content) as [m|]; [|discriminate].
  destruct (extract_style (group m 2)) as [css' r1].
  destruct (extract_script r1) as [js' r2].
  intros [= _ _ <- _]. split; [apply strip_lstrip|apply strip_rstrip].
Qed.

Lemma parse_page_body_stripped_witness :
  lstrip (lit "<p>Hello</p>") = lit "<p>Hello</p>"
  /\ rstrip (lit "<p>Hello</p>") = lit "<p>Hello</p>".
Proof.
  apply (@parse_page_body_stripped
           EXAMPLE_PAGE
           [(lit "title", lit "Config"); (lit "active", lit "config")]
           (lit ".x{color:red}") (lit "<p>Hello</p>") EXAMPLE_JS).
  reflexivity.
Defined.

(** ** The style step *)

Lemma run_star_space (re : regex) (M : list mark) (q : nat) (t : str) :
  run re_DOTALL (Star Space :: re) M q t
  = star_greedy isspace (run re_DOTALL re M) q t.
Proof. reflexivity. Qed.

Lemma run_star_dot (re : regex) (M : list mark) (q : nat) (t : str) :
  run re_DOTALL (Star Dot :: re) M q t
  = star_greedy (fun _ => true) (run re_DOTALL re M) q t.
Proof. reflexivity. Qed.

Lemma run_lazy_dot (re : regex) (M : list mark) (q : nat) (t : str) :
  run re_DOTALL (StarLazy Dot :: re) M q t
  = star_lazy (fun _ => true) (run re_DOTALL re M) q t.
Proof. reflexivity. Qed.

Lemma run_open (g : nat) (re : regex) (M : list mark) (q : nat) (t : str) :
  run re_DOTALL (Open g :: re) M q t = run re_DOTALL re ((g, false, q) :: M) q t.
Proof. reflexivity. Qed.

Lemma run_close (g : nat) (re : regex) (M : list mark) (q : nat) (t : str) :
  run re_DOTALL (Close g :: re) M q t = run re_DOTALL re ((g, true, q) :: M) q t.
Proof. reflexivity. Qed.

(** A greedy [\s*] before something that always matches takes all the
    white space there is. *)
Lemma star_greedy_lstrip_total (R : Type) (k : nat -> str -> option R)
      (p : nat) (s : str) :
  (forall q t, k q t <> None) ->
  star_greedy isspace k p s
  = k (p + (length s - length (lstrip s))) (lstrip s).
Proof.
  intros Hk. revert p; induction s as [|c s IH]; intros p.
  - simpl. now rewrite Nat.add_0_r.
  - pose proof (length_lstrip s) as L.
    cbn [star_greedy lstrip]. destruct (isspace c) eqn:E.
    + rewrite IH.
      replace (p + (length (c :: s) - length (lstrip s)))
        with (S p + (length s - length (lstrip s))) by (cbn [length]; lia).
      destruct (k _ (lstrip s)) eqn:K; trivial. now apply Hk in K.
    + now rewrite Nat.sub_diag, Nat.add_0_r.
Qed.

Lemma skipn_lstrip (s : str) : skipn (length s - length (lstrip s)) s = lstrip s.
Proof.
  induction s as [|c s IH]; trivial.
  pose proof (length_lstrip s) as L.
  simpl lstrip. destruct (isspace c).
  - replace (length (c :: s) - length (lstrip s))
      with (S (length s - length (lstrip s))) by (cbn [length]; lia).
    exact IH.
  - now rewrite Nat.sub_diag.
Qed.

Lemma open_dot_close_run (M : list mark) (q : nat) (t : str) :
  run re_DOTALL [Open 2; Star Dot; Close 2] M q t
  = Some (q + length t, [(2, true, q + length t); (2, false, q)] ++ M).
Proof.
  rewrite run_open, run_star_dot. apply star_greedy_to_end; reflexivity.
Qed.

Lemma space_not_lt (x : str) (c : char) (t : str) :
  isspace c = true -> startswith (60%N :: x) (c :: t) = false.
Proof.
  intros H. cbn [startswith]. destruct (char_eqb 60%N c) eqn:E; trivial.
  apply char_eqb_eq in E. subst c. discriminate H.
Qed.

Lemma style_re_unfold :
  STYLE_RE
  = Star Space
    :: (map Chr STYLE_OPEN
        ++ Open 1 :: StarLazy Dot :: Close 1
        :: (map Chr STYLE_CLOSE ++ Star Space :: [Open 2; Star Dot; Close 2])).
Proof. reflexivity. Qed.

Lemma style_run (rest : str) :
  run re_DOTALL STYLE_RE [] 0 rest
  = let p0 := length rest - length (lstrip rest) in
    let body := skipn 7 (lstrip rest) in
    if startswith STYLE_OPEN (lstrip rest)
    then match find STYLE_CLOSE body with
         | Some i =>
             let t := skipn 8 (skipn i body) in
             let a := p0 + 7 + i + 8 + (length t - length (lstrip t)) in
             Some (a + length (lstrip t),
                   [(2, true, a + length (lstrip t)); (2, false, a);
                    (1, true, p0 + 7 + i); (1, false, p0 + 7)])
         | None => None
         end
    else None.
Proof.
  cbv zeta. rewrite style_re_unfold, run_star_space, star_greedy_lstrip.
  - rewrite run_lits. cbn [Nat.add].
    destruct (startswith STYLE_OPEN (lstrip rest)); trivial.
    change (length STYLE_OPEN) with 7.
    rewrite run_open, run_lazy_dot.
    rewrite (@star_lazy_find _ _ STYLE_CLOSE
               (fun q t =>
                  let t' := skipn 8 t in
                  let a := q + 8 + (length t' - length (lstrip t')) in
                  (a + length (lstrip t'),
                   [(2, true, a + length (lstrip t')); (2, false, a); (1, true, q);
                    (1, false, length rest - length (lstrip rest) + 7)]))).
    + destruct (find STYLE_CLOSE (skipn 7 (lstrip rest))); reflexivity.
    + intros q t. rewrite run_close, run_lits.
      destruct (startswith STYLE_CLOSE t); trivial.
      change (length STYLE_CLOSE) with 8.
      rewrite run_star_space, star_greedy_lstrip_total.
      * now rewrite open_dot_close_run.
      * intros q' t'. now rewrite open_dot_close_run.
  - intros q c t Hc. rewrite run_lits.
    change STYLE_OPEN with (60%N :: skipn 1 STYLE_OPEN).
    now rewrite space_not_lt.
Qed.

Lemma slice_skipn (s : str) (a n : nat) :
  slice s a (a + n) = firstn n (skipn a s).
Proof. unfold slice. f_equal. lia. Qed.

Lemma extract_style_eq (rest : str) :
  extract_style rest
  = let body := skipn 7 (lstrip rest) in
    if startswith STYLE_OPEN (lstrip rest)
    then match find STYLE_CLOSE body with
         | Some i => (firstn i body, lstrip (skipn (i + 8) body))
         | None => ([], rest)
         end
    else ([], rest).
Proof.
  unfold extract_style, re_match. rewrite style_run. cbv zeta.
  destruct (startswith STYLE_OPEN (lstrip rest)); trivial.
  destruct (find STYLE_CLOSE (skipn 7 (lstrip rest))) as [i|]; trivial.
  unfold group. cbn [m_marks m_string mark_pos Nat.eqb Bool.eqb andb].
  rewrite !slice_skipn.
  set (p0 := length rest - length (lstrip rest)).
  set (body := skipn 7 (lstrip rest)).
  set (t := skipn 8 (skipn i body)).
  assert (skipn (p0 + 7) rest = body) as E1.
  { unfold body, p0. now rewrite <- skipn_skipn_add, skipn_lstrip. }
  assert (skipn (p0 + 7 + i + 8 + (length t - length (lstrip t))) rest = lstrip t)
    as E2.
  { rewrite <- skipn_skipn_add, <- skipn_skipn_add, <- skipn_skipn_add, E1.
    fold t. apply skipn_lstrip. }
  f_equal.
  - now rewrite E1.
  - rewrite E2, firstn_all. unfold t. now rewrite skipn_skipn_add.
Qed.

Lemma firstn_length_app {A} (a b : list A) : firstn (length a) (a ++ b) = a.
Proof. now rewrite firstn_app, firstn_all, Nat.sub_diag, app_nil_r. Qed.

(** X8: a style block at the start of the content is taken out.  When the
    content is white space, [<style>], a text [css] in which no [</style>]
    begins, [</style>], white space and a text [tail] that does not begin
    with white space, the page CSS is [css], without the tags, and the
    rest of the page is parsed from [tail]. *)
Theorem parse_page_leading_style (fm ws css gap tail : str) :
  find FM_CLOSE
       (fm ++ FM_CLOSE ++ ws ++ STYLE_OPEN ++ css ++ STYLE_CLOSE ++ gap ++ tail)
  = Some (length fm) ->
  forallb isspace ws = true ->
  find STYLE_CLOSE (css ++ STYLE_CLOSE ++ gap ++ tail) = Some (length css) ->
  forallb isspace gap = true ->
  lstrip tail = tail ->
  parse_page
    (FM_OPEN ++ fm ++ FM_CLOSE ++ ws ++ STYLE_OPEN ++ css ++ STYLE_CLOSE ++ gap ++ tail)
  = Ok (parse_meta fm, css,
        strip (snd (extract_script tail)), fst (extract_script tail)).
Proof.
  intros Hfm Hws Hcss Hgap Htail.
  rewrite parse_page_steps.
  destruct (@frontmatter_match_groups
              (FM_OPEN ++ fm ++ FM_CLOSE ++ ws ++ STYLE_OPEN ++ css ++ STYLE_CLOSE
                       ++ gap ++ tail) (length fm))
    as (m & Hm & G1 & G2); [apply startswith_app|exact Hfm|].
  change (skipn 4 (FM_OPEN ++ ?x)) with x in G1, G2.
  rewrite firstn_length_app in G1.
  rewrite <- skipn_skipn_add, skipn_length_app in G2.
  change (skipn 5 (FM_CLOSE ++ ?x)) with x in G2.
  rewrite Hm, G1, G2, extract_style_eq. cbv zeta.
  rewrite lstrip_app_space by exact Hws.
  change (lstrip (STYLE_OPEN ++ ?x)) with (STYLE_OPEN ++ x).
  rewrite startswith_app.
  change (skipn 7 (STYLE_OPEN ++ ?x)) with x.
  rewrite Hcss, firstn_length_app.
  rewrite <- skipn_skipn_add, skipn_length_app.
  change (skipn 8 (STYLE_CLOSE ++ ?x)) with x.
  rewrite lstrip_app_space, Htail by exact Hgap.
  now destruct (extract_script tail).
Qed.

Lemma parse_page_leading_style_witness :
  parse_page (lit "---\nt: x\n---\n\n <style>.a{b:c}</style>\n\n<p>x</p></style>\n")
  = Ok ([(lit "t", lit "x")], lit ".a{b:c}", lit "<p>x</p></style>", []).
Proof.
  exact (eq_trans
           (@parse_page_leading_style
              (lit "t: x") (lit "\n ") (lit ".a{b:c}") (lit "\n\n")
              (lit "<p>x</p></style>\n") eq_refl eq_refl eq_refl eq_refl eq_refl)
           eq_refl).
Defined.

Lemma extract_style_none (rest : str) :
  startswith STYLE_OPEN (lstrip rest) = false
  \/ find STYLE_CLOSE (skipn 7 (lstrip rest)) = None ->
  extract_style rest = ([], rest).
Proof.
  intros H. rewrite extract_style_eq. cbv zeta.
  destruct H as [-> | ->]; trivial.
  now destruct (startswith STYLE_OPEN (lstrip rest)).
Qed.

(** X9: a style block that is not at the start of the content, or that is
    never closed, is left where it is.  When the content, after its leading
    white space, does not begin with [<style>], or no [</style>] follows,
    the page CSS is empty and the script step works on the whole
    content. *)
Theorem parse_page_no_leading_style (fm rest : str) :
  find FM_CLOSE (fm ++ FM_CLOSE ++ rest) = Some (length fm) ->
  startswith STYLE_OPEN (lstrip rest) = false
  \/ find STYLE_CLOSE (skipn 7 (lstrip rest)) = None ->
  parse_page (FM_OPEN ++ fm ++ FM_CLOSE ++ rest)
  = Ok (parse_meta fm, [],
        strip (snd (extract_script rest)), fst (extract_script rest)).
Proof.
  intros Hfm H.
  rewrite parse_page_steps.
  destruct (@frontmatter_match_groups (FM_OPEN ++ fm ++ FM_CLOSE ++ rest) (length fm))
    as (m & Hm & G1 & G2); [apply startswith_app|exact Hfm|].
  change (skipn 4 (FM_OPEN ++ ?x)) with x in G1, G2.
  rewrite firstn_length_app in G1.
  rewrite <- skipn_skipn_add, skipn_length_app in G2.
  change (skipn 5 (FM_CLOSE ++ ?x)) with x in G2.
  rewrite Hm, G1, G2, extract_style_none by exact H.
  now destruct (extract_script rest).
Qed.

Lemma parse_page_no_leading_style_witness :
  parse_page (lit "---\nt: x\n---\n<p>x</p><style>.a{b:c}</style>")
  = Ok ([(lit "t", lit "x")], [], lit "<p>x</p><style>.a{b:c}</style>", []).
Proof.
  exact (eq_trans
           (@parse_page_no_leading_style
              (lit "t: x") LATE_STYLE_CONTENT eq_refl (or_introl eq_refl))
           eq_refl).
Defined.

Lemma startswith_firstn (sub s : str) (n : nat) :
  startswith sub (firstn n s) = true -> startswith sub s = true.
Proof.
  revert s n; induction sub as [|x sub IH]; intros s n; trivial.
  destruct n as [|n]; destruct s as [|y s]; simpl; try discriminate.
  intros H. apply andb_true_iff in H as [-> H]. simpl. eauto.
Qed.

Lemma find_firstn_None (sub s : str) (i : nat) :
  sub <> [] -> find sub s = Some i -> find sub (firstn i s) = None.
Proof.
  intros Hne. revert i; induction s as [|c s IH]; intros i; simpl.
  - destruct (startswith sub []); [|discriminate].
    intros [= <-]. simpl. now rewrite startswith_nil_r.
  - destruct (startswith sub (c :: s)) eqn:E.
    + intros [= <-]. simpl. now rewrite startswith_nil_r.
    + destruct (find sub s) as [j|]; simpl; [|discriminate].
      intros [= <-]. rewrite find_unfold. cbn [firstn].
      destruct (startswith sub (c :: firstn j s)) eqn:E'.
      * apply (@startswith_firstn sub (c :: s) (S j)) in E'. congruence.
      * now rewrite IH.
Qed.

(** X10: the page CSS that [parse_page] returns has no [</style>] in
    it. *)
Theorem parse_page_css_no_close_tag (content : str) (meta : dict) (css body js : str) :
  parse_page content = Ok (meta, css, body, js) ->
  find STYLE_CLOSE css = None.
Proof.
  rewrite parse_page_steps.
  destruct (re_match re_DOTALL FRONTMATTER_RE content) as [m|]; [|discriminate].
  rewrite extract_style_eq. cbv zeta.
  destruct (startswith STYLE_OPEN (lstrip (group m 2))).
  - destruct (find STYLE_CLOSE (skipn 7 (lstrip (group m 2)))) as [i|] eqn:F.
    + destruct (extract_script _) as [js' r2]. intros [= _ <- _ _].
      apply find_firstn_None; [discriminate|exact F].
    + destruct (extract_script _) as [js' r2]. now intros [= _ <- _ _].
  - destruct (extract_script _) as [js' r2]. now intros [= _ <- _ _].
Qed.

Lemma parse_page_css_no_close_tag_witness :
  find STYLE_CLOSE (lit ".x{color:red}") = None.
Proof.
  apply (@parse_page_css_no_close_tag
           EXAMPLE_PAGE
           [(lit "title", lit "Config"); (lit "active", lit "config")]
           (lit ".x{color:red}") (lit "<p>Hello</p>") EXAMPLE_JS).
  reflexivity.
Defined.

(** ** The script step *)

Lemma lstrip_split (s : str) :
  exists ws, s = ws ++ lstrip s /\ forallb isspace ws = true.
Proof.
  induction s as [|c s (ws & E & H)]; simpl.
  - now exists [].
  - destruct (isspace c) eqn:Ec.
    + exists (c :: ws). simpl. rewrite Ec, H. split; [now rewrite <- E|reflexivity].
    + now exists [].
Qed.

Lemma forallb_rev (f : char -> bool) (l : str) :
  forallb f (rev l) = forallb f l.
Proof.
  induction l as [|c l IH]; trivial.
  simpl. rewrite forallb_app, IH. simpl. rewrite andb_true_r. apply andb_comm.
Qed.

Lemma rstrip_split (s : str) :
  exists ws, s = rstrip s ++ ws /\ forallb isspace ws = true.
Proof.
  destruct (lstrip_split (rev s)) as (ws & E & H).
  exists (rev ws). split.
  - unfold rstrip. rewrite <- rev_app_distr, <- E. now rewrite rev_involutive.
  - now rewrite forallb_rev.
Qed.

Lemma rstrip_app_space (x t : str) :
  forallb isspace t = true -> rstrip (x ++ t) = rstrip x.
Proof.
  intros H. unfold rstrip. rewrite rev_app_distr, lstrip_app_space; trivial.
  now rewrite forallb_rev.
Qed.

Lemma rstrip_snoc_nonspace (x : str) (c : char) :
  isspace c = false -> rstrip (x ++ [c]) = x ++ [c].
Proof.
  intros H. unfold rstrip. rewrite rev_app_distr. simpl. rewrite H.
  simpl. now rewrite rev_involutive.
Qed.

Lemma rstrip_lstrip_comm (s : str) : rstrip (lstrip s) = lstrip (rstrip s).
Proof.
  induction s as [|c s IH]; trivial.
  simpl lstrip. destruct (isspace c) eqn:E.
  - rewrite IH, rstrip_cons. rewrite E.
    destruct (rstrip s) eqn:R; trivial. simpl. now rewrite E.
  - symmetry. apply rstrip_keeps_lstrip. simpl. now rewrite E.
Qed.

Lemma strip_rstrip_arg (s : str) : strip (rstrip s) = strip s.
Proof.
  unfold strip. now rewrite <- rstrip_lstrip_comm, rstrip_idem.
Qed.

Lemma endswith_app (y p : str) : endswith p (y ++ p) = true.
Proof. unfold endswith. rewrite rev_app_distr. apply startswith_app. Qed.

Lemma endswith_split (p s : str) :
  endswith p s = true -> exists y, s = y ++ p.
Proof.
  unfold endswith. intros H. apply startswith_split in H.
  exists (rev (skipn (length (rev p)) (rev s))).
  rewrite <- (rev_involutive p) at 2. rewrite <- rev_app_distr, <- H.
  now rewrite rev_involutive.
Qed.

Lemma script_tail_inv (M : list mark) (q : nat) (t : str) (r : nat * list mark) :
  run re_DOTALL (map Chr SCRIPT_CLOSE ++ [Star Space; Close 1; Eol]) M q t = Some r ->
  exists tail, t = SCRIPT_CLOSE ++ tail /\ forallb isspace tail = true.
Proof.
  rewrite run_lits. destruct (startswith SCRIPT_CLOSE t) eqn:E; [|discriminate].
  rewrite space_close_eol_run.
  destruct (forallb isspace _) eqn:F; [|discriminate].
  intros _. apply startswith_split in E. eauto.
Qed.

Lemma script_run_inv (p : nat) (s : str) (e : nat) (marks : list mark) :
  run re_DOTALL SCRIPT_RE [] p s = Some (e, marks) ->
  e = p + length s
  /\ marks = [(1, true, p + length s); (1, false, p)]
  /\ exists ws mid tail,
       s = ws ++ SCRIPT_OPEN ++ mid ++ SCRIPT_CLOSE ++ tail
       /\ forallb isspace ws = true /\ forallb isspace tail = true.
Proof.
  intros H.
  assert (exists ws mid tail,
             s = ws ++ SCRIPT_OPEN ++ mid ++ SCRIPT_CLOSE ++ tail
             /\ forallb isspace ws = true /\ forallb isspace tail = true)
    as (ws & mid & tail & Es & Hws & Htail).
  { rewrite script_re_unfold, run_open, run_star_space in H.
    rewrite star_greedy_lstrip in H
      by (intros q c t Hc; rewrite run_lits, isspace_not_lt; trivial).
    rewrite run_lits in H.
    destruct (startswith SCRIPT_OPEN (lstrip s)) eqn:S0; [|discriminate].
    rewrite run_star_dot in H.
    apply star_greedy_inv in H as (s1 & s2 & E12 & H).
    apply script_tail_inv in H as (tail & -> & Htail).
    destruct (lstrip_split s) as (ws & Es & Hws).
    apply startswith_split in S0. rewrite E12 in S0.
    exists ws, s1, tail. rewrite <- S0. auto. }
  subst s. rewrite script_run_ok in H by trivial.
  injection H as <- <-. eauto 10.
Qed.

Lemma search_from_inv (f : flags) (re : regex) (whole : str) (p : nat) (s : str)
      (m : match_obj) :
  search_from f re whole p s = Some m ->
  exists pre s',
    s = pre ++ s' /\ m_string m = whole /\ m_start m = p + length pre
    /\ run f re [] (p + length pre) s' = Some (m_end m, m_marks m).
Proof.
  revert p; induction s as [|c s IH]; intros p; cbn [search_from].
  - destruct (run f re [] p []) as [[e marks]|] eqn:R; [|discriminate].
    intros [= <-]. exists [], []. simpl. rewrite Nat.add_0_r. auto.
  - destruct (run f re [] p (c :: s)) as [[e marks]|] eqn:R.
    + intros [= <-]. exists [], (c :: s). simpl. rewrite Nat.add_0_r. auto.
    + intros H. apply IH in H as (pre & s' & -> & Hs & Hst & Hr).
      exists (c :: pre), s'. cbn [length]. rewrite <- Nat.add_succ_comm. auto.
Qed.

Lemma extract_script_inv (rest : str) :
  extract_script rest = ([], rest)
  \/ exists pre ws mid tail,
       rest = pre ++ ws ++ SCRIPT_OPEN ++ mid ++ SCRIPT_CLOSE ++ tail
       /\ forallb isspace ws = true /\ forallb isspace tail = true
       /\ extract_script rest
          = (ws ++ SCRIPT_OPEN ++ mid ++ SCRIPT_CLOSE ++ tail, pre).
Proof.
  unfold extract_script, re_search.
  destruct (search_from re_DOTALL SCRIPT_RE rest 0 rest) as [m|] eqn:S0; [|now left].
  right. apply search_from_inv in S0 as (pre & s' & E & Hs & Hst & Hr).
  destruct m as [ms mst me mm]. simpl in Hs, Hst, Hr. subst ms mst.
  apply script_run_inv in Hr as (-> & -> & ws & mid & tail & -> & Hws & Htail).
  exists pre, ws, mid, tail. repeat split; trivial.
  unfold group, start.
  cbn [m_marks m_string m_start mark_pos Nat.eqb Bool.eqb andb Nat.add].
  rewrite slice_skipn, E, skipn_length_app, firstn_all, firstn_length_app.
  reflexivity.
Qed.

(** X11: the script step cuts the content in two and loses nothing.  The
    content that remains after the style step is a text [r] followed by
    the page JS; the body is [r] stripped; and the page JS is either empty
    or white space, [<script>], any text, [</script>] and white space. *)
Theorem parse_page_body_and_js (fm rest : str) :
  find FM_CLOSE (fm ++ FM_CLOSE ++ rest) = Some (length fm) ->
  exists r js,
    snd (extract_style rest) = r ++ js
    /\ parse_page (FM_OPEN ++ fm ++ FM_CLOSE ++ rest)
       = Ok (parse_meta fm, fst (extract_style rest), strip r, js)
    /\ (js = []
        \/ exists ws mid tail,
             js = ws ++ SCRIPT_OPEN ++ mid ++ SCRIPT_CLOSE ++ tail
             /\ forallb isspace ws = true /\ forallb isspace tail = true).
Proof.
  intros Hfm.
  destruct (@frontmatter_match_groups (FM_OPEN ++ fm ++ FM_CLOSE ++ rest) (length fm))
    as (m & Hm & G1 & G2); [apply startswith_app|exact Hfm|].
  change (skipn 4 (FM_OPEN ++ ?x)) with x in G1, G2.
  rewrite firstn_length_app in G1.
  rewrite <- skipn_skipn_add, skipn_length_app in G2.
  change (skipn 5 (FM_CLOSE ++ ?x)) with x in G2.
  rewrite parse_page_steps, Hm, G1, G2.
  destruct (extract_style rest) as [css r1]. cbn [fst snd].
  destruct (extract_script_inv r1) as [E|(pre & ws & mid & tail & E1 & Hws & Htail & E)];
    rewrite E.
  - exists r1, []. rewrite app_nil_r. auto.
  - exists pre, (ws ++ SCRIPT_OPEN ++ mid ++ SCRIPT_CLOSE ++ tail).
    split; [exact E1|]. split; [reflexivity|]. right. eauto 10.
Qed.

Lemma parse_page_body_and_js_witness :
  exists r js,
    snd (extract_style EARLY_SCRIPT_CONTENT) = r ++ js
    /\ parse_page (FM_OPEN ++ lit "t: x" ++ FM_CLOSE ++ EARLY_SCRIPT_CONTENT)
       = Ok (parse_meta (lit "t: x"), fst (extract_style EARLY_SCRIPT_CONTENT),
             strip r, js)
    /\ (js = []
        \/ exists ws mid tail,
             js = ws ++ SCRIPT_OPEN ++ mid ++ SCRIPT_CLOSE ++ tail
             /\ forallb isspace ws = true /\ forallb isspace tail = true).
Proof.
  apply (@parse_page_body_and_js (lit "t: x") EARLY_SCRIPT_CONTENT). reflexivity.
Defined.

Lemma extract_script_none (r : str) :
  find SCRIPT_OPEN r = None \/ endswith SCRIPT_CLOSE (rstrip r) = false ->
  extract_script r = ([], r).
Proof.
  intros H.
  destruct (extract_script_inv r) as [E|(pre & ws & mid & tail & E1 & Hws & Htail & _)];
    trivial.
  exfalso. destruct H as [H|H].
  - rewrite E1, app_assoc in H. now apply find_app_Some in H.
  - assert (rstrip r = (pre ++ ws ++ SCRIPT_OPEN ++ mid) ++ SCRIPT_CLOSE) as R.
    { rewrite E1.
      replace (pre ++ ws ++ SCRIPT_OPEN ++ mid ++ SCRIPT_CLOSE ++ tail)
        with (((pre ++ ws ++ SCRIPT_OPEN ++ mid) ++ firstn 8 SCRIPT_CLOSE)
                ++ [62%N] ++ tail)
        by (rewrite <- !app_assoc; reflexivity).
      rewrite app_assoc, rstrip_app_space by exact Htail.
      rewrite rstrip_snoc_nonspace by reflexivity.
      now rewrite <- !app_assoc. }
    rewrite R, endswith_app in H. discriminate.
Qed.

(** X12: a script block that is not at the end of the content is left in
    the body.  When the content that remains after the style step has no
    [<script>], or does not end, up to white space, with [</script>], the
    page JS is empty and the body is that content, stripped. *)
Theorem parse_page_no_trailing_script (fm rest : str) :
  find FM_CLOSE (fm ++ FM_CLOSE ++ rest) = Some (length fm) ->
  find SCRIPT_OPEN (snd (extract_style rest)) = None
  \/ endswith SCRIPT_CLOSE (rstrip (snd (extract_style rest))) = false ->
  parse_page (FM_OPEN ++ fm ++ FM_CLOSE ++ rest)
  = Ok (parse_meta fm, fst (extract_style rest),
        strip (snd (extract_style rest)), []).
Proof.
  intros Hfm H.
  destruct (@frontmatter_match_groups (FM_OPEN ++ fm ++ FM_CLOSE ++ rest) (length fm))
    as (m & Hm & G1 & G2); [apply startswith_app|exact Hfm|].
  change (skipn 4 (FM_OPEN ++ ?x)) with x in G1, G2.
  rewrite firstn_length_app in G1.
  rewrite <- skipn_skipn_add, skipn_length_app in G2.
  change (skipn 5 (FM_CLOSE ++ ?x)) with x in G2.
  rewrite parse_page_steps, Hm, G1, G2.
  destruct (extract_style rest) as [css r1]. cbn [fst snd] in *.
  now rewrite extract_script_none.
Qed.

Lemma parse_page_no_trailing_script_witness :
  parse_page (lit "---\nt: x\n---\n<p>x</p>\n<script>a()</script>\n<p>after</p>\n")
  = Ok ([(lit "t", lit "x")], [],
        lit "<p>x</p>\n<script>a()</script>\n<p>after</p>", []).
Proof.
  exact (eq_trans
           (@parse_page_no_trailing_script
              (lit "t: x") EARLY_SCRIPT_CONTENT eq_refl (or_intror eq_refl))
           eq_refl).
Defined.

Lemma script_open_lt (d : nat) : nth_error SCRIPT_OPEN d = Some 60%N -> d = 0.
Proof.
  intros H. destruct d as [|[|[|[|[|[|[|[|d]]]]]]]]; trivial; try discriminate H.
  destruct d; discriminate H.
Qed.

Lemma script_close_lt (d : nat) : nth_error SCRIPT_CLOSE d = Some 60%N -> d = 0.
Proof.
  intros H. destruct d as [|[|[|[|[|[|[|[|[|d]]]]]]]]]; trivial; try discriminate H.
  destruct d; discriminate H.
Qed.

(** The last [</script>] of a text that ends with it, up to white space,
    begins after the first [<script>] has ended. *)
Lemma script_tags_apart (a b y tail : str) :
  a ++ SCRIPT_OPEN ++ b = y ++ SCRIPT_CLOSE ++ tail ->
  forallb isspace tail = true ->
  exists mid, b = mid ++ SCRIPT_CLOSE ++ tail.
Proof.
  intros E Htail.
  assert (length a + 8 <= length y) as L.
  { destruct (le_lt_dec (length a + 8) (length y)) as [|Lt]; trivial. exfalso.
    assert (forall d, d < 8 ->
              nth_error (a ++ SCRIPT_OPEN ++ b) (length a + d)
              = nth_error SCRIPT_OPEN d) as H1.
    { intros d Hd. rewrite nth_error_app2 by lia.
      replace (length a + d - length a) with d by lia.
      now apply nth_error_app1. }
    assert (forall d, d < 9 ->
              nth_error (y ++ SCRIPT_CLOSE ++ tail) (length y + d)
              = nth_error SCRIPT_CLOSE d) as H2.
    { intros d Hd. rewrite nth_error_app2 by lia.
      replace (length y + d - length y) with d by lia.
      now apply nth_error_app1. }
    destruct (le_lt_dec (length y + 9) (length a)) as [Far|Near].
    - (* the first [<] would be in the white space *)
      pose proof (H1 0 ltac:(lia)) as A. rewrite Nat.add_0_r, E in A.
      rewrite nth_error_app2, nth_error_app2 in A
        by (try rewrite nth_error_app2; change (length SCRIPT_CLOSE) with 9; lia).
      apply nth_error_In in A. rewrite forallb_forall in Htail.
      apply Htail in A. discriminate A.
    - destruct (le_lt_dec (length y) (length a)) as [Le|Gt].
      + (* the first [<] would be inside [</script>] *)
        pose proof (H1 0 ltac:(lia)) as A. rewrite Nat.add_0_r, E in A.
        replace (length a) with (length y + (length a - length y)) in A at 1 by lia.
        rewrite H2 in A by lia. apply script_close_lt in A.
        pose proof (H1 1 ltac:(lia)) as B. rewrite E in B.
        replace (length a + 1) with (length y + 1) in B by lia.
        rewrite H2 in B by lia. discriminate B.
      + (* the [<] of [</script>] would be inside [<script>] *)
        pose proof (H2 0 ltac:(lia)) as A. rewrite Nat.add_0_r, <- E in A.
        replace (length y) with (length a + (length y - length a)) in A at 1 by lia.
        rewrite H1 in A by lia. apply script_open_lt in A. lia. }
  exists (skipn (length a + 8) y).
  apply (f_equal (skipn (length a + 8))) in E.
  rewrite <- skipn_skipn_add, skipn_length_app in E.
  change (skipn 8 (SCRIPT_OPEN ++ b)) with b in E.
  rewrite E, skipn_app.
  replace (length a + 8 - length y) with 0 by lia. reflexivity.
Qed.

Lemma extract_script_some (r : str) (q : nat) :
  find SCRIPT_OPEN r = Some q ->
  endswith SCRIPT_CLOSE (rstrip r) = true ->
  extract_script r
  = (skipn (length (rstrip (firstn q r))) r, rstrip (firstn q r)).
Proof.
  intros F Hend.
  pose proof (find_Some_split _ _ F) as Er.
  destruct (endswith_split _ _ Hend) as (y & Ey).
  destruct (rstrip_split r) as (tail & Et & Htail).
  rewrite Ey, <- app_assoc in Et.
  assert (exists mid, skipn (q + length SCRIPT_OPEN) r = mid ++ SCRIPT_CLOSE ++ tail)
    as (mid & Eb).
  { apply (@script_tags_apart (firstn q r) _ y); trivial. now rewrite <- Er. }
  destruct (rstrip_split (firstn q r)) as (ws & Ea & Hws).
  set (pre := rstrip (firstn q r)) in *.
  assert (r = pre ++ ws ++ SCRIPT_OPEN ++ mid ++ SCRIPT_CLOSE ++ tail) as Erest.
  { rewrite Er at 1. rewrite Eb, Ea at 1. now rewrite <- app_assoc. }
  rewrite Erest at 1 2. rewrite skipn_length_app.
  apply script_search; trivial.
  - apply rstrip_idem.
  - apply (@find_no_start _ _ _ q).
    + now rewrite <- Erest.
    + apply (f_equal (@length char)) in Ea. rewrite length_app in Ea.
      pose proof (firstn_le_length q r). lia.
Qed.

(** X13: when the content that remains after the style step has a
    [<script>] and ends, up to white space, with [</script>], the page JS
    is that content from the white space before its first [<script>] to
    its end, whatever lies between, and the body is what comes before the
    first [<script>], stripped. *)
Theorem parse_page_trailing_script (fm rest : str) (q : nat) :
  find FM_CLOSE (fm ++ FM_CLOSE ++ rest) = Some (length fm) ->
  find SCRIPT_OPEN (snd (extract_style rest)) = Some q ->
  endswith SCRIPT_CLOSE (rstrip (snd (extract_style rest))) = true ->
  parse_page (FM_OPEN ++ fm ++ FM_CLOSE ++ rest)
  = Ok (parse_meta fm, fst (extract_style rest),
        strip (firstn q (snd (extract_style rest))),
        skipn (length (rstrip (firstn q (snd (extract_style rest)))))
              (snd (extract_style rest))).
Proof.
  intros Hfm F Hend.
  destruct (@frontmatter_match_groups (FM_OPEN ++ fm ++ FM_CLOSE ++ rest) (length fm))
    as (m & Hm & G1 & G2); [apply startswith_app|exact Hfm|].
  change (skipn 4 (FM_OPEN ++ ?x)) with x in G1, G2.
  rewrite firstn_length_app in G1.
  rewrite <- skipn_skipn_add, skipn_length_app in G2.
  change (skipn 5 (FM_CLOSE ++ ?x)) with x in G2.
  rewrite parse_page_steps, Hm, G1, G2.
  destruct (extract_style rest) as [css r1]. cbn [fst snd] in *.
  rewrite (extract_script_some _ F Hend). now rewrite strip_rstrip_arg.
Qed.

Lemma parse_page_trailing_script_witness :
  parse_page (FM_OPEN ++ lit "t: x" ++ FM_CLOSE ++ SCRIPT_CONTENT)
  = Ok ([(lit "t", lit "x")], [], lit "<p>x</p>",
        lit " \n<script>a()</script><b></b><script>b()</script> \n").
Proof.
  rewrite (@parse_page_trailing_script (lit "t: x") SCRIPT_CONTENT 10);
    vm_compute; reflexivity.
Defined.

(* ===================================================================== *)
(** * Further properties of build *)
(* ===================================================================== *)

Lemma run_pages_all (dir : str) (d : dict) (pages : list str) :
  (forall f, In f pages ->
             exists s p, dict_lookup d f = Some s /\ parse_page s = Ok p) ->
  run_pages dir d pages = (pages, Ok tt).
Proof.
  induction pages as [|f pages IH]; intros H; trivial.
  simpl. destruct (H f (or_introl eq_refl)) as (s & p & -> & ->).
  rewrite IH; trivial. intros g I. apply H. now right.
Qed.

Lemma run_pages_done_In (dir : str) (d : dict) (pages : list str) (f : str) :
  In f (fst (run_pages dir d pages)) -> In f pages.
Proof.
  induction pages as [|g pages IH]; simpl; trivial.
  destruct (dict_lookup d g) as [s|]; [|contradiction].
  destruct (parse_page s); [|contradiction].
  destruct (run_pages dir d pages) as [done r]. simpl in *.
  intros [->|I]; auto.
Qed.

Lemma dict_lookup_Some_in (d : dict) (k v : str) :
  dict_lookup d k = Some v -> In k (map fst d).
Proof.
  intros H. destruct (in_dec (list_eq_dec N.eq_dec) k (map fst d)) as [I|NI]; trivial.
  apply dict_lookup_not_in in NI. congruence.
Qed.

Lemma page_list_of_In (d : dict) (f : str) :
  In f (map fst d) -> endswith (lit ".html") f = true -> In f (page_list d).
Proof.
  intros I E. unfold page_list.
  apply (Permutation_in _ (Permutation_sym (sorted_perm _))).
  apply filter_In. auto.
Qed.

(** X14: when every page parses, the run succeeds with exit status 0,
    prints one line for each page, in ascending order of the file names
    (the order of the code points), and then the number of pages; the
    pages are the files of the pages directory whose names end in [.html],
    each one once. *)
Theorem build_success (w : World) (layout : str) (d : dict) :
  dict_lookup (docs_files w) LAYOUT_NAME = Some layout ->
  pages_files w = Some d ->
  page_list d <> [] ->
  (forall f s, In f (page_list d) -> dict_lookup d f = Some s ->
               exists p, parse_page s = Ok p) ->
  fst (build w) = Ok tt
  /\ exit_status (fst (build w)) = 0
  /\ stdout (snd (build w))
     = (lit "Done " ++ DONE_DASH ++ lit " " ++ str_of_nat (length (page_list d))
            ++ lit " pages")
         :: rev (map (fun f => lit "  built " ++ f) (page_list d)) ++ stdout w
  /\ Sorted str_le (page_list d)
  /\ Permutation (page_list d) (filter (endswith (lit ".html")) (map fst d)).
Proof.
  intros Hl Hp Hne Hall.
  assert (run_pages (docs_dir w) d (page_list d) = (page_list d, Ok tt)) as Hrun.
  { apply run_pages_all. intros f I.
    destruct (dict_lookup d f) as [s|] eqn:L.
    - destruct (Hall f s I L) as [p P]. eauto.
    - apply page_list_In in I as [I _]. now apply dict_lookup_in in I. }
  assert (build w
          = (Ok tt,
             {| docs_dir := docs_dir w;
                docs_files := write_all layout d (page_list d) (docs_files w);
                pages_files := Some d;
                stdout := (lit "Done " ++ DONE_DASH ++ lit " "
                               ++ str_of_nat (length (page_list d)) ++ lit " pages")
                            :: built_lines (page_list d) ++ stdout w |})) as B.
  { destruct w as [dir docs pgs out]. simpl in Hl, Hp, Hrun. subst pgs.
    unfold build, bind, read_file, listdir_pages, LAYOUT_PATH.
    cbn [pages_files docs_dir docs_files stdout]. fold LAYOUT_NAME. rewrite Hl.
    cbn [pages_files docs_dir docs_files stdout]. fold (page_list d).
    destruct (page_list d) as [|f fs] eqn:E; [congruence|].
    rewrite for_each_build_page with (d := d) by reflexivity.
    cbn [pages_files docs_dir docs_files stdout]. now rewrite Hrun. }
  rewrite B. cbn [fst snd stdout exit_status].
  repeat split; trivial.
  - apply sorted_Sorted.
  - apply sorted_perm.
Qed.

Lemma build_success_witness :
  fst (build GOOD_SITE) = Ok tt
  /\ stdout (snd (build GOOD_SITE))
     = [lit "Done " ++ DONE_DASH ++ lit " 2 pages";
        lit "  built c.html"; lit "  built a.html"].
Proof.
  assert (forall f s,
             In f (page_list [(lit "c.html", WIDE_PAGE); (lit "a.html", EXAMPLE_PAGE)]) ->
             dict_lookup [(lit "c.html", WIDE_PAGE); (lit "a.html", EXAMPLE_PAGE)] f
             = Some s ->
             exists p, parse_page s = Ok p) as Hall.
  { intros f s I L. vm_compute in I.
    destruct I as [<-|[<-|[]]]; vm_compute in L; injection L as <-;
      eexists; vm_compute; reflexivity. }
  destruct (@build_success GOOD_SITE (lit "<title>{{TITLE}}</title>{{BODY}}") _
              eq_refl eq_refl ltac:(discriminate) Hall) as (R & _ & O & _).
  split; [exact R|exact (eq_trans O eq_refl)].
Defined.

(** X15: a run never removes a file of [DOCS_DIR], never changes the pages
    directory, and changes no file of [DOCS_DIR] but those named as a
    page: a file whose name does not end in [.html], or is no file of the
    pages directory, is as it was, however the run ends. *)
Theorem build_touches_only_pages (w : World) :
  docs_dir (snd (build w)) = docs_dir w
  /\ pages_files (snd (build w)) = pages_files w
  /\ (forall f, dict_lookup (docs_files w) f <> None ->
                dict_lookup (docs_files (snd (build w))) f <> None)
  /\ (forall f, endswith (lit ".html") f = false ->
                dict_lookup (docs_files (snd (build w))) f
                = dict_lookup (docs_files w) f)
  /\ (forall d f, pages_files w = Some d -> ~ In f (map fst d) ->
                  dict_lookup (docs_files (snd (build w))) f
                  = dict_lookup (docs_files w) f).
Proof.
  destruct (build_snd w) as (Hdir & Hpg & Hdocs).
  split; [exact Hdir|]. split; [exact Hpg|].
  rewrite Hdocs. unfold build_docs.
  destruct (dict_lookup (docs_files w) LAYOUT_NAME) as [layout|]; [|now repeat split].
  destruct (pages_files w) as [d|]; [|repeat split; trivial; discriminate].
  assert (forall f, ~ In f (page_list d) ->
            dict_lookup
              (write_all layout d (fst (run_pages (docs_dir w) d (page_list d)))
                         (docs_files w)) f
            = dict_lookup (docs_files w) f) as Hout.
  { intros f NI. apply write_all_lookup. intros I. apply NI.
    now apply run_pages_done_In in I. }
  split; [|split].
  - intros f. apply write_all_keeps.
  - intros f E. apply Hout. intros I. apply page_list_In in I as [_ I]. congruence.
  - intros d' f [= <-] NI. apply Hout. intros I.
    apply page_list_In in I as [I _]. contradiction.
Qed.

Lemma build_touches_only_pages_witness :
  dict_lookup (docs_files (snd (build SITE))) (lit "notes.txt")
  = dict_lookup (docs_files SITE) (lit "notes.txt")
  /\ dict_lookup (docs_files (snd (build SITE))) (lit "b.html") <> None.
Proof.
  destruct (build_touches_only_pages SITE) as (_ & _ & Keep & NotHtml & _).
  split.
  - apply NotHtml. reflexivity.
  - apply Keep. discriminate.
Defined.

(** X16: a page named [_layout.html] is a page like any other, and its
    output file is the layout itself: after a run that succeeds, the
    layout file holds the text written for that page. *)
Theorem build_overwrites_layout (w : World) (layout : str) (d : dict)
        (source : str) (p : page) (u : unit) :
  dict_lookup (docs_files w) LAYOUT_NAME = Some layout ->
  pages_files w = Some d ->
  dict_lookup d LAYOUT_NAME = Some source ->
  parse_page source = Ok p ->
  fst (build w) = Ok u ->
  dict_lookup (docs_files (snd (build w))) LAYOUT_NAME = Some (fill_layout layout p).
Proof.
  intros Hl Hp Hs Hparse Hok.
  assert (In LAYOUT_NAME (page_list d)) as I.
  { apply page_list_of_In; [|reflexivity]. eapply dict_lookup_Some_in; eauto. }
  rewrite build_fst in Hok. unfold build_result in Hok. rewrite Hl, Hp in Hok.
  assert (snd (run_pages (docs_dir w) d (page_list d)) = Ok u) as Hrun.
  { destruct (page_list d); [discriminate|exact Hok]. }
  apply run_pages_Ok in Hrun as [Hdone _].
  rewrite (proj2 (proj2 (build_snd w))). unfold build_docs.
  rewrite Hl, Hp, Hdone.
  rewrite (proj1 (write_all_lookup layout d (page_list d) (docs_files w) LAYOUT_NAME) I).
  unfold page_html. now rewrite Hs, Hparse.
Qed.

Lemma build_overwrites_layout_witness :
  dict_lookup (docs_files (snd (build ALIAS_SITE))) LAYOUT_NAME
  = Some (lit "<title>Wide</title><p>wide</p>").
Proof.
  exact (eq_trans
           (@build_overwrites_layout
              ALIAS_SITE (lit "<title>{{TITLE}}</title>{{BODY}}") _ WIDE_PAGE
              ([(lit "title", lit "Wide"); (lit "max_width", lit "1000px")],
               [], lit "<p>wide</p>", [])
              tt eq_refl eq_refl eq_refl eq_refl eq_refl)
           eq_refl).
Defined.

(** X17: the layout is read first and the pages directory is listed next.
    When the layout file is missing the run ends with [FileNotFoundError]
    for its path, and when the layout is there but the pages directory is
    missing, with [FileNotFoundError] for that directory; either way with
    exit status 1, nothing printed and no file written. *)
Theorem build_missing_input (w : World) :
  (dict_lookup (docs_files w) LAYOUT_NAME = None ->
   build w
   = (Raise (FileNotFoundError (path_join (docs_dir w) (lit "_layout.html"))), w))
  /\ (forall layout,
         dict_lookup (docs_files w) LAYOUT_NAME = Some layout ->
         pages_files w = None ->
         build w
         = (Raise (FileNotFoundError (path_join (docs_dir w) (lit "_pages"))), w))
  /\ (dict_lookup (docs_files w) LAYOUT_NAME = None \/ pages_files w = None ->
      exit_status (fst (build w)) = 1).
Proof.
  destruct w as [dir docs pgs out].
  unfold build, bind, read_file, listdir_pages, LAYOUT_PATH.
  cbn [pages_files docs_dir docs_files stdout path_str]. fold LAYOUT_NAME.
  split; [|split].
  - now intros ->.
  - intros layout -> ->. reflexivity.
  - intros [-> | ->]; trivial.
    now destruct (dict_lookup docs LAYOUT_NAME).
Qed.

Lemma build_missing_input_witness :
  build NO_LAYOUT_SITE
  = (Raise (FileNotFoundError (lit "/repo/docs/_layout.html")), NO_LAYOUT_SITE)
  /\ build NO_PAGES_DIR_SITE
     = (Raise (FileNotFoundError (lit "/repo/docs/_pages")), NO_PAGES_DIR_SITE).
Proof.
  split.
  - exact (proj1 (build_missing_input NO_LAYOUT_SITE) eq_refl).
  - exact (proj1 (proj2 (build_missing_input NO_PAGES_DIR_SITE))
                 (lit "<title>{{TITLE}}</title>{{BODY}}") eq_refl eq_refl).
Defined.

(* ===================================================================== *)
(** * Further properties of the replacements *)
(* ===================================================================== *)

Lemma replace_absent (old new s : str) :
  old <> [] -> find old s = None -> replace old new s = s.
Proof.
  intros Hne. induction s as [|c s IH]; intros F.
  - now apply replace_nil.
  - rewrite find_unfold in F.
    destruct (startswith old (c :: s)) eqn:E; [discriminate|].
    rewrite replace_miss by trivial. f_equal. apply IH.
    now destruct (find old s).
Qed.

(** X18: the replacements are unconditional and need no placeholder.  In a
    layout in which none of the thirteen placeholders occurs, nothing is
    inserted: the text written is the layout, whatever the page. *)
Theorem fill_layout_without_placeholders (layout : str) (p : page) :
  (forall n, In n placeholder_names -> find (token n) layout = None) ->
  fill_layout layout p = layout.
Proof.
  intros H. rewrite fill_layout_apply.
  rewrite <- (substitutions_names p) in H.
  induction (substitutions p) as [|[n v] subs IH]; trivial.
  unfold apply_substitutions. cbn [fold_left fst snd].
  rewrite replace_absent.
  - apply IH. intros n' I. apply H. now right.
  - apply token_not_nil.
  - apply H. now left.
Qed.

Lemma fill_layout_without_placeholders_witness :
  fill_layout (lit "<p>{{FOOTER}} a{b} {{ TITLE }}</p>") EXAMPLE_PARSED
  = lit "<p>{{FOOTER}} a{b} {{ TITLE }}</p>".
Proof.
  apply fill_layout_without_placeholders.
  intros n I. vm_compute in I.
  repeat (destruct I as [<-|I]; [vm_compute; reflexivity|]). contradiction.
Defined.

(** X19: a page without [title] and [description] is rendered with the
    title [oxicrab] and an empty description: in a layout of well-formed
    pieces, with safe values, every [{{TITLE}}] token becomes [oxicrab] and
    every [{{DESCRIPTION}}] token the empty text. *)
Theorem title_description_defaults
        (l : list piece) (source : str) (meta : dict) (css body js : str) :
  parse_page source = Ok (meta, css, body, js) ->
  dict_lookup meta (lit "title") = None ->
  dict_lookup meta (lit "description") = None ->
  forallb wf_piece l = true ->
  safe_values (meta, css, body, js) = true ->
  fill_layout (flatten l) (meta, css, body, js)
  = flatten (map (expand (substitutions (meta, css, body, js))) l)
  /\ expand (substitutions (meta, css, body, js)) (Token (lit "TITLE"))
     = Text (lit "oxicrab")
  /\ expand (substitutions (meta, css, body, js)) (Token (lit "DESCRIPTION"))
     = Text [].
Proof.
  intros _ Ht Hd W Sv. split; [now apply fill_layout_pieces|].
  unfold expand, substitutions, dict_get. rewrite Ht, Hd. split; reflexivity.
Qed.

Lemma title_description_defaults_witness :
  fill_layout (flatten [Text (lit "<title>"); Token (lit "TITLE");
                        Text (lit "</title><meta content=[");
                        Token (lit "DESCRIPTION"); Text (lit "]>")])
              ([(lit "active", lit "cli")], [], lit "<p>x</p>", [])
  = lit "<title>oxicrab</title><meta content=[]>".
Proof.
  destruct (@title_description_defaults
              [Text (lit "<title>"); Token (lit "TITLE");
               Text (lit "</title><meta content=[");
               Token (lit "DESCRIPTION"); Text (lit "]>")]
              (lit "---\nactive: cli\n---\n<p>x</p>")
              [(lit "active", lit "cli")] [] (lit "<p>x</p>") []
              eq_refl eq_refl eq_refl eq_refl eq_refl) as (E & _).
  exact (eq_trans E eq_refl).
Defined.

Lemma no_lbrace_safe (s : str) :
  forallb (fun c => negb (char_eqb c LBRACE)) s = true -> safe s = true.
Proof.
  induction s as [|c s IH]; trivial.
  intros H. simpl in H. apply andb_true_iff in H as [Hc H].
  cbn [safe]. now rewrite Hc, IH.
Qed.

Lemma flatten_three (a : str) (pc : piece) (b : str) :
  flatten [Text a; pc; Text b] = a ++ piece_text pc ++ b.
Proof. unfold flatten. simpl. now rewrite app_nil_r. Qed.

(** X20: the replacements are made one after the other, each on the text
    that the ones before it left, so a value is itself searched for the
    placeholders that are replaced after it.  For a page whose title is
    the text [{{BODY}}], a layout with [{{TITLE}}] between two texts gets
    the body of the page there (the two texts and the body have no left
    brace). *)
Theorem title_is_expanded_again (pre post : str) (meta : dict) (css body js : str) :
  dict_lookup meta (lit "title") = Some (lit "{{BODY}}") ->
  forallb (fun c => negb (char_eqb c LBRACE)) pre = true ->
  forallb (fun c => negb (char_eqb c LBRACE)) post = true ->
  forallb (fun c => negb (char_eqb c LBRACE)) body = true ->
  fill_layout (pre ++ lit "{{TITLE}}" ++ post) (meta, css, body, js)
  = pre ++ body ++ post.
Proof.
  intros Ht Hpre Hpost Hbody.
  apply no_lbrace_safe in Hpre, Hpost, Hbody.
  assert (forall n v, brace_free n = true -> n <> lit "BODY" ->
            replace (token n) v (flatten [Text pre; Token (lit "BODY"); Text post])
            = flatten [Text pre; Token (lit "BODY"); Text post]) as Keep.
  { intros n v Bn Hn. apply replace_pieces_none; trivial.
    - simpl. now rewrite Hpre, Hpost.
    - intros [H|[H|[H|[]]]]; try discriminate H. injection H as H. congruence. }
  assert (forall n v, brace_free n = true ->
            replace (token n) v (flatten [Text pre; Text body; Text post])
            = flatten [Text pre; Text body; Text post]) as Done.
  { intros n v Bn. apply replace_pieces_none; trivial.
    - simpl. now rewrite Hpre, Hbody, Hpost.
    - intros [H|[H|[H|[]]]]; discriminate H. }
  rewrite fill_layout_apply. unfold substitutions, dict_get. rewrite Ht.
  unfold apply_substitutions. cbn [fold_left fst snd app map nav_keys].
  change (lit "{{TITLE}}") with (piece_text (Token (lit "TITLE"))) at 1.
  rewrite <- flatten_three.
  rewrite replace_pieces by (try reflexivity; simpl; now rewrite Hpre, Hpost).
  change (flatten (map (expand [(lit "TITLE", lit "{{BODY}}")])
                       [Text pre; Token (lit "TITLE"); Text post]))
    with (flatten [Text pre; Token (lit "BODY"); Text post]).
  rewrite !Keep by (try reflexivity; intros H; vm_compute in H; discriminate H).
  rewrite replace_pieces by (try reflexivity; simpl; now rewrite Hpre, Hpost).
  change (flatten (map (expand [(lit "BODY", body)])
                       [Text pre; Token (lit "BODY"); Text post]))
    with (flatten [Text pre; Text body; Text post]).
  rewrite !Done by reflexivity.
  apply flatten_three.
Qed.

Lemma title_is_expanded_again_witness :
  fill_layout (lit "<h1>" ++ lit "{{TITLE}}" ++ lit "</h1>")
              ([(lit "title", lit "{{BODY}}")], [], lit "<p>the body</p>", [])
  = lit "<h1>" ++ lit "<p>the body</p>" ++ lit "</h1>".
Proof.
  apply (@title_is_expanded_again
           (lit "<h1>") (lit "</h1>")
           [(lit "title", lit "{{BODY}}")] [] (lit "<p>the body</p>") []);
    reflexivity.
Defined.
